(** * duplipy.replication: text and image augmentation helpers

    A shallow embedding of [src/duplipy/replication.py].

    The Python module is glue over libraries it does not implement.
    The WordNet lexical database, the NLTK tokenizer and tagger, and
    the reading of a file are the variables of the section that holds
    the functions: each answers or raises, and every theorem holds for
    whatever they answer.  A PIL image is kept as its size and its
    pixels.  A text is a string of code points below 256.

    The interpreter services the functions use ([random], [time.time],
    [print]) are modelled by an explicit [world] that every computation
    threads:

    - the random source is an oracle tape of raw variates; each call of
      a primitive of [random] consumes one cell and reduces it to the
      range asked for, so a variate uniform on a range gives a result
      uniform on it;
    - the clock is a tape of readings;
    - standard output is the list of what was printed, oldest first;
      [print] itself does not fail.

    [try ... except Exception] is [try_except]; a computation either
    returns a value or raises, and in both cases hands back the world
    it reached, so what was printed before a failure stays printed. *)

From Stdlib Require Import String Ascii List ZArith NArith QArith Bool Lia Arith.
From Stdlib Require Import Permutation.
From Stdlib Require Import DecimalString.
Import ListNotations.

Open Scope string_scope.
Open Scope list_scope.

(** ** Exceptions and outcomes *)

(** An instance of a subclass of Python's [Exception]: its class name
    and the text [str(e)] gives. *)
Record pyexn : Type := mk_exn { exn_class : string; exn_str : string }.

Definition ValueError (msg : string) : pyexn := mk_exn "ValueError" msg.
Definition TypeError (msg : string) : pyexn := mk_exn "TypeError" msg.
Definition IndexError (msg : string) : pyexn := mk_exn "IndexError" msg.

Inductive outcome (A : Type) : Type :=
| Returned (a : A)
| Raised (e : pyexn).
Arguments Returned {A} a.
Arguments Raised {A} e.

(** ** The world *)

(** What one call of [print] wrote.  The progress line of the
    augmentation loop embeds a rate computed and formatted in floating
    point; it is kept symbolic, with the integers and the elapsed time
    it was built from. *)
Inductive out_event : Type :=
| Printed (text : string) (end_ : string)
| PrintedProgress (processed_tokens num_tokens : nat) (elapsed_time : Q).

Record world : Type := mk_world {
  rand_tape : nat -> N;        (* raw variates of the generator *)
  rand_pos : nat;              (* how many have been consumed *)
  clock_tape : nat -> Q;       (* successive readings of time.time() *)
  clock_pos : nat;
  stdout : list out_event
}.

Definition M (A : Type) : Type := world -> outcome A * world.

Definition ret {A} (a : A) : M A := fun w => (Returned a, w).

Definition raise {A} (e : pyexn) : M A := fun w => (Raised e, w).

Definition bind {A B} (m : M A) (k : A -> M B) : M B :=
  fun w =>
    match m w with
    | (Returned a, w') => k a w'
    | (Raised e, w') => (Raised e, w')
    end.

Notation "x <- m ;; k" := (bind m (fun x => k))
  (at level 61, m at next level, right associativity).
Notation "m ;;; k" := (bind m (fun _ => k))
  (at level 61, right associativity).
Notation "' pat <- m ;; k" :=
  (bind m (fun x => match x with pat => k end))
  (at level 61, pat pattern, m at next level, right associativity).

(** [try: body except Exception as e: handler e]. *)
Definition try_except {A} (body : M A) (handler : pyexn -> M A) : M A :=
  fun w =>
    match body w with
    | (Returned a, w') => (Returned a, w')
    | (Raised e, w') => handler e w'
    end.

(** A collaborator's answer enters the computation as it is. *)
Definition lift {A} (o : outcome A) : M A := fun w => (o, w).

Definition result {A} (r : outcome A * world) : outcome A := fst r.
Definition final {A} (r : outcome A * world) : world := snd r.

(** Two worlds hold the same draws when their random sources are the
    same tape read up to the same place; clocks and what was printed
    may differ.  Two computations agree when, from worlds with the same
    draws, they end alike (same value or same exception) in worlds
    with the same draws. *)
Definition same_draws (w1 w2 : world) : Prop :=
  rand_tape w1 = rand_tape w2 /\ rand_pos w1 = rand_pos w2.

Definition agree {A} (m1 m2 : M A) : Prop :=
  forall w1 w2,
    same_draws w1 w2 ->
    fst (m1 w1) = fst (m2 w2) /\ same_draws (snd (m1 w1)) (snd (m2 w2)).

(** *** print *)

Definition print_end (text end_ : string) : M unit :=
  fun w => (Returned tt,
            mk_world (rand_tape w) (rand_pos w) (clock_tape w) (clock_pos w)
                     (stdout w ++ [Printed text end_])).

Definition newline : string := String (ascii_of_nat 10) EmptyString.
Definition carriage_return : string := String (ascii_of_nat 13) EmptyString.

Definition print (text : string) : M unit := print_end text newline.

Definition print_progress (processed_tokens num_tokens : nat) (elapsed_time : Q)
  : M unit :=
  fun w => (Returned tt,
            mk_world (rand_tape w) (rand_pos w) (clock_tape w) (clock_pos w)
                     (stdout w ++ [PrintedProgress processed_tokens num_tokens
                                                   elapsed_time])).

(** *** time.time *)

Definition time_time : M Q :=
  fun w => (Returned (clock_tape w (clock_pos w)),
            mk_world (rand_tape w) (rand_pos w) (clock_tape w) (S (clock_pos w))
                     (stdout w)).

(** *** random *)

(** The variate about to be drawn, and the world once it is drawn. *)
Definition current_variate (w : world) : N := rand_tape w (rand_pos w).

Definition consume_variate (w : world) : world :=
  mk_world (rand_tape w) (S (rand_pos w)) (clock_tape w) (clock_pos w)
           (stdout w).

(** The next raw variate. *)
Definition next_variate : M N :=
  fun w => (Returned (current_variate w), consume_variate w).

(** [random.random()]: a multiple of 2^-53 in [0, 1). *)
Definition two53 : N := 9007199254740992.

Definition random_random : M Q :=
  v <- next_variate ;;
  ret (Z.of_N (v mod two53) # 9007199254740992).

(** [random._randbelow(n)] for [n > 0]: an integer in [0, n). *)
Definition randbelow (n : N) : M N :=
  v <- next_variate ;;
  ret (v mod n)%N.

(** [str(n)], and ['%d' % n], for an integer. *)
Definition str_int (n : Z) : string := NilZero.string_of_int (Z.to_int n).

(** [random.randint(a, b)] is [randrange(a, b + 1)]: an integer in
    [a, b], [ValueError] when the range is empty.  The text of the
    error is that of CPython 3.11, the newest release the package
    lists; other releases word it otherwise. *)
Definition random_randint (a b : Z) : M Z :=
  if (b <? a)%Z
  then raise (ValueError
                ("empty range for randrange() (" ++ str_int a ++ ", "
                 ++ str_int (b + 1) ++ ", " ++ str_int (b + 1 - a) ++ ")"))
  else
    k <- randbelow (Z.to_N (b - a + 1)) ;;
    ret (a + Z.of_N k)%Z.

(** [random.choice(seq)]: [seq[_randbelow(len(seq))]], [IndexError]
    on an empty sequence. *)
Definition random_choice (seq : list string) : M string :=
  match seq with
  | [] => raise (IndexError "Cannot choose from an empty sequence")
  | _ :: _ =>
      k <- randbelow (N.of_nat (List.length seq)) ;;
      ret (nth (N.to_nat k) seq "")
  end.

(** ** Strings *)

(** Python's whitespace among the code points below 256. *)
Definition is_space (c : ascii) : bool :=
  let n := N_of_ascii c in
  ((9 <=? n) && (n <=? 13) || (28 <=? n) && (n <=? 32)
   || (n =? 133) || (n =? 160))%N.

Definition is_empty (s : string) : bool :=
  match s with EmptyString => true | String _ _ => false end.

(** [scan s] reads [s] from its end: the token being read at the head
    of [s] (empty when [s] starts with whitespace) and the complete
    tokens after it. *)
Fixpoint scan (s : string) : string * list string :=
  match s with
  | EmptyString => (EmptyString, [])
  | String c s' =>
      let (cur, toks) := scan s' in
      if is_space c
      then (EmptyString, if is_empty cur then toks else cur :: toks)
      else (String c cur, toks)
  end.

(** [s.split()]: the maximal runs of non-whitespace characters. *)
Definition split (s : string) : list string :=
  let (cur, toks) := scan s in
  if is_empty cur then toks else cur :: toks.

Fixpoint has_space (s : string) : bool :=
  match s with
  | EmptyString => false
  | String c s' => is_space c || has_space s'
  end.

(** A token: not empty, and free of whitespace. *)
Definition is_token (t : string) : Prop :=
  t <> EmptyString /\ has_space t = false.

(** [sep.join(items)]. *)
Fixpoint join (sep : string) (items : list string) : string :=
  match items with
  | [] => EmptyString
  | [x] => x
  | x :: rest => x ++ sep ++ join sep rest
  end.

(** [s.replace(old, new)] for a non-empty [old]: the text is read left
    to right; where [old] starts, [new] is written and the characters
    of that occurrence are skipped ([skip] counts those still to skip),
    so occurrences are replaced without overlap. *)
Fixpoint replace_from (old new : string) (skip : nat) (s : string) : string :=
  match s with
  | EmptyString => EmptyString
  | String c s' =>
      match skip with
      | S k => replace_from old new k s'
      | O =>
          if prefix old s
          then new ++ replace_from old new (String.length old - 1) s'
          else String c (replace_from old new 0 s')
      end
  end.

(** With an empty [old], [new] is written before every character and
    at the end. *)
Fixpoint replace_empty (new : string) (s : string) : string :=
  match s with
  | EmptyString => new
  | String c s' => new ++ String c (replace_empty new s')
  end.

Definition str_replace (s old new : string) : string :=
  if is_empty old then replace_empty new s else replace_from old new 0 s.

(** [old] occurs in [s]. *)
Definition occurs (old s : string) : Prop :=
  exists before after : string, s = (before ++ old ++ after)%string.

(** The same, decided: [old] starts at some position of [s]. *)
Fixpoint contains (old s : string) : bool :=
  match s with
  | EmptyString => is_empty old
  | String _ s' => prefix old s || contains old s'
  end.

(** [tag.startswith(("VB", "NN", "JJ"))]. *)
Definition startswith_any (prefixes : list string) (s : string) : bool :=
  existsb (fun p => prefix p s) prefixes.

(** ** Lists as Python uses them *)

(** [words.insert(i, word)]: a negative index counts from the end, and
    an index out of range is clamped. *)
Definition list_insert (words : list string) (i : Z) (word : string)
  : list string :=
  let len := Z.of_nat (List.length words) in
  let i := if (i <? 0)%Z then Z.max 0 (i + len) else Z.min i len in
  firstn (Z.to_nat i) words ++ word :: skipn (Z.to_nat i) words.

(** [words.pop(i)]: the list without its item at [i]; a negative index
    counts from the end, and an index out of range is an [IndexError].
    (The popped item is not used by the callers.) *)
Definition list_pop (words : list string) (i : Z) : M (list string) :=
  let len := Z.of_nat (List.length words) in
  let i := if (i <? 0)%Z then (i + len)%Z else i in
  if ((i <? 0) || (len <=? i))%Z
  then raise (IndexError "pop index out of range")
  else ret (firstn (Z.to_nat i) words ++ skipn (S (Z.to_nat i)) words).

(** [pool[j] = x]. *)
Fixpoint list_set (pool : list string) (j : nat) (x : string) : list string :=
  match pool, j with
  | [], _ => []
  | _ :: rest, O => x :: rest
  | y :: rest, S j' => y :: list_set rest j' x
  end.

(** [random.sample(population, k)] as CPython runs it when the
    population is small against the selection set, which is always so
    for [k = len(population)]: a pool is drawn from and the hole is
    filled with the last live item. *)
Fixpoint sample_pool (k : nat) (pool : list string) (live : nat)
  : M (list string) :=
  match k with
  | O => ret []
  | S k' =>
      j <- randbelow (N.of_nat live) ;;
      let picked := nth (N.to_nat j) pool "" in
      let pool' := list_set pool (N.to_nat j) (nth (live - 1) pool "") in
      rest <- sample_pool k' pool' (live - 1) ;;
      ret (picked :: rest)
  end.

Definition random_sample (population : list string) (k : nat)
  : M (list string) :=
  if (List.length population <? k)%nat
  then raise (ValueError "Sample larger than population or is negative")
  else sample_pool k population (List.length population).

(** ** Values the functions receive *)

(** The [probability] argument: [None], a number, or a value that has
    no order against a float (a string, a list, ...). *)
Inductive pyprob : Type :=
| PNone
| PNumber (p : Q)
| PUnordered (type_name : string).

(** [r < probability] for a float [r]. *)
Definition float_lt (r : Q) (probability : pyprob) : M bool :=
  match probability with
  | PNumber p => ret (negb (Qle_bool p r))
  | PNone =>
      raise (TypeError
        "'<' not supported between instances of 'float' and 'NoneType'")
  | PUnordered t =>
      raise (TypeError
        ("'<' not supported between instances of 'float' and '" ++ t ++ "'"))
  end.

(** What a global name of the module can be bound to, as far as
    calling it goes. *)
Inductive pyobj : Type :=
| PyModule (name : string)
| PyClass (name : string).

(** Line 28, [import tqdm], binds the name to the module. *)
Definition tqdm : pyobj := PyModule "tqdm".

(** A progress bar: [tqdm.tqdm(total=..., desc=...)].  It writes to
    standard error, which the world does not keep. *)
Record progress_bar : Type := mk_bar { bar_total : nat; bar_desc : string }.

(** Calling [callee(total=total, desc=desc)]: a class builds its
    instance, a module is not callable. *)
Definition call_bar (callee : pyobj) (total : nat) (desc : string)
  : M progress_bar :=
  match callee with
  | PyClass _ => ret (mk_bar total desc)
  | PyModule _ => raise (TypeError "'module' object is not callable")
  end.

Definition pbar_update (pbar : progress_bar) (n : nat) : M unit := ret tt.

(** ** Images *)

(** A PIL image as far as cropping goes: its size and its pixels, the
    origin at the top left. *)
Record image : Type := mk_image {
  img_width : Z;
  img_height : Z;
  img_pixel : Z -> Z -> N
}.

Definition image_size (im : image) : Z * Z := (img_width im, img_height im).

Definition box : Type := (Z * Z * Z * Z)%type.

(** PIL's guard against decompression bombs: [Image.MAX_IMAGE_PIXELS]
    and the check [Image.crop] makes on the size of the box.  Above
    twice the limit it is an error; between the limit and twice the
    limit it is a warning, which goes to standard error and is not
    kept here. *)
Definition MAX_IMAGE_PIXELS : Z := 89478485.

Definition DecompressionBombError (msg : string) : pyexn :=
  mk_exn "DecompressionBombError" msg.

Definition decompression_bomb_check (size : Z * Z) : M unit :=
  let pixels := (Z.max 1 (fst size) * Z.max 1 (snd size))%Z in
  if (2 * MAX_IMAGE_PIXELS <? pixels)%Z
  then raise (DecompressionBombError
                ("Image size (" ++ str_int pixels
                 ++ " pixels) exceeds limit of "
                 ++ str_int (2 * MAX_IMAGE_PIXELS)
                 ++ " pixels, could be decompression bomb DOS attack."))
  else ret tt.

(** [Image.crop(box)]: the region from [(left, upper)] up to but not
    including [(right, lower)]; what lies outside the source is blank.
    A box whose right or lower edge comes before its left or upper
    edge is a [ValueError], and a box of too many pixels a
    [DecompressionBombError]. *)
Definition Image_crop (im : image) (b : box) : M image :=
  let '(left_, upper, right_, lower) := b in
  if (right_ <? left_)%Z
  then raise (ValueError "Coordinate 'right' is less than 'left'")
  else if (lower <? upper)%Z
  then raise (ValueError "Coordinate 'lower' is less than 'upper'")
  else
    decompression_bomb_check
      (Z.abs (right_ - left_), Z.abs (lower - upper)) ;;;
    ret (mk_image (right_ - left_) (lower - upper)
           (fun x y =>
              let sx := (left_ + x)%Z in
              let sy := (upper + y)%Z in
              if ((0 <=? sx) && (sx <? img_width im)
                  && (0 <=? sy) && (sy <? img_height im))%Z
              then img_pixel im sx sy
              else 0%N)).

(** [Image.transpose(method)] for the two flips: the size is kept and
    the columns, or the rows, are read in the reverse order. *)
Inductive transpose_method : Type :=
| FLIP_LEFT_RIGHT
| FLIP_TOP_BOTTOM.

Definition Image_transpose (im : image) (method : transpose_method) : image :=
  mk_image (img_width im) (img_height im)
    (fun x y =>
       match method with
       | FLIP_LEFT_RIGHT => img_pixel im (img_width im - 1 - x) y
       | FLIP_TOP_BOTTOM => img_pixel im x (img_height im - 1 - y)
       end).

(** ** Sample collaborators

    Small, total stand-ins for the collaborators, used to run the
    functions on concrete inputs. *)

Definition sample_synsets (word : string) : outcome (list (list string)) :=
  if String.eqb word "happy"
  then Returned [["happy"; "felicitous"]; ["glad"; "happy"]]
  else if String.eqb word "cat"
  then Returned [["cat"; "true_cat"]]
  else if String.eqb word "corrupt"
  then Raised (mk_exn "LookupError" "Resource wordnet not found.")
  else Returned [].

(** On texts made of plain words and blanks [nltk.word_tokenize] gives
    the whitespace-delimited words. *)
Definition sample_word_tokenize (text : string) : outcome (list string) :=
  Returned (split text).

Definition missing_word_tokenize (text : string) : outcome (list string) :=
  Raised (mk_exn "LookupError" "Resource punkt not found.").

Definition sample_tag (token : string) : string :=
  if String.eqb token "cat" then "NN"
  else if String.eqb token "happy" then "JJ"
  else if String.eqb token "purrs" then "VBZ"
  else "DT".

Definition sample_pos_tag (tokens : list string)
  : outcome (list (string * string)) :=
  Returned (map (fun token => (token, sample_tag token)) tokens).

Definition sample_open_read (file_path : string) : outcome string :=
  if String.eqb file_path "corpus.txt"
  then Returned "the happy cat"
  else Raised (mk_exn "FileNotFoundError"
                 ("[Errno 2] No such file or directory: '" ++ file_path ++ "'")).

Definition sample_world (variates : list N) : world :=
  mk_world (fun i => nth i variates 0%N) 0 (fun i => inject_Z (Z.of_nat i)) 0 [].

(** A second world: the same draws, another clock, and a line already
    printed. *)
Definition later_world (variates : list N) : world :=
  mk_world (fun i => nth i variates 0%N) 0 (fun i => 1000 # 1) 0
           [Printed "started" newline].

(** A rotation that, as [expand=True] does, answers with a larger
    image holding the source one pixel in from its border. *)
Definition sample_rotate (im : image) (angle : Q) : outcome image :=
  Returned (mk_image (img_width im + 2) (img_height im + 2)
              (fun x y => img_pixel im (x - 1) (y - 1))).

(** One row, wider than twice [MAX_IMAGE_PIXELS]. *)
Definition wide_image : image :=
  mk_image 178956972 1 (fun x y => 0%N).

Definition sample_image : image :=
  mk_image 4 3 (fun x y => Z.to_N (10 * y + x)).

(** ** The module's functions *)

Section Replication.

(** The lemma names WordNet holds for a word, one list per synset:
    [[lemma.name() for lemma in syn.lemmas()] for syn in
    wordnet.synsets(word)].  The lookup may raise. *)
Variable wordnet_synsets : string -> outcome (list (list string)).

(** [nltk.word_tokenize] and [nltk.pos_tag]. *)
Variable word_tokenize : string -> outcome (list string).
Variable pos_tag : list string -> outcome (list (string * string)).

(** [open(file_path, 'r')] followed by [file.read()]. *)
Variable open_read : string -> outcome string.

(** [image.rotate(angle, resample=Image.BICUBIC, expand=True)]: the
    resampling is PIL's; only that it answers with some image, or
    raises, is used. *)
Variable Image_rotate_expand : image -> Q -> outcome image.

(** The two nested loops of lines 49-51, appending every lemma name
    of every synset. *)
Definition collect_synonyms (synsets : list (list string)) : list string :=
  fold_left
    (fun synonyms syn =>
       fold_left (fun synonyms name => synonyms ++ [name]) syn synonyms)
    synsets [].

Definition replace_word_with_synonym (word : string) : M string :=
  try_except
    (synsets <- lift (wordnet_synsets word) ;;
     let synonyms := collect_synonyms synsets in
     match synonyms with
     | _ :: _ =>
         synonym <- random_choice synonyms ;;
         ret synonym
     | [] => ret word
     end)
    (fun e =>
       print ("An error occurred during word replacement: " ++ exn_str e) ;;;
       ret word).

(** The elapsed time shown on a progress line (lines 100-102). *)
Definition elapsed_since (start_time : Q) : M Q :=
  now <- time_time ;;
  let elapsed_time := now - start_time in
  ret (if Qeq_bool elapsed_time 0 then 1 # 1000000 else elapsed_time).

(** The loop over the tokens (lines 89-104), from the tokens already
    written and the count of tokens processed so far. *)
Fixpoint augment_tokens (probability : pyprob) (progress : bool)
    (num_tokens : nat) (start_time : Q) (tokens : list string)
    (augmented_tokens : list string) (processed_tokens : nat)
  : M (list string * nat) :=
  match tokens with
  | [] => ret (augmented_tokens, processed_tokens)
  | token :: tokens' =>
      r <- random_random ;;
      below <- float_lt r probability ;;
      augmented_tokens <-
        (if below : bool
         then replaced_token <- replace_word_with_synonym token ;;
              ret (augmented_tokens ++ [replaced_token])
         else ret (augmented_tokens ++ [token])) ;;
      let processed_tokens := S processed_tokens in
      (if progress
       then elapsed_time <- elapsed_since start_time ;;
            print_progress processed_tokens num_tokens elapsed_time
       else ret tt) ;;;
      augment_tokens probability progress num_tokens start_time tokens'
                     augmented_tokens processed_tokens
  end.

(** The loop over [range(augmentation_factor)] (lines 86-106). *)
Fixpoint augment_passes (probability : pyprob) (progress : bool)
    (num_tokens : nat) (start_time : Q) (tokens : list string)
    (passes : nat) (augmented_text : list string) (processed_tokens : nat)
  : M (list string) :=
  match passes with
  | O => ret augmented_text
  | S passes' =>
      '(augmented_tokens, processed_tokens) <-
        augment_tokens probability progress num_tokens start_time tokens
                       [] processed_tokens ;;
      augment_passes probability progress num_tokens start_time tokens
                     passes' (augmented_text ++ [join " " augmented_tokens])
                     processed_tokens
  end.

Definition spaces100 : string :=
  Eval cbv in
    fold_right (fun _ s => String " "%char s) EmptyString (seq 0 100).

Definition augment_text_with_synonyms (text : string)
    (augmentation_factor : Z) (probability : pyprob) (progress : bool)
  : M (list string) :=
  try_except
    ((match probability with
      | PNone =>
          raise (ValueError
            "Probability value cannot be of NoneType. Choose a float from 0 to 1")
      | _ => ret tt
      end) ;;;
     let tokens := split text in
     let num_tokens := List.length tokens in
     start_time <- time_time ;;
     augmented_text <-
       augment_passes probability progress num_tokens start_time tokens
                      (Z.to_nat augmentation_factor) [] 0 ;;
     (if progress
      then print_end spaces100 carriage_return ;;;
           print "Augmentation complete."
      else ret tt) ;;;
     ret augmented_text)
    (fun e =>
       print ("An error occurred during text augmentation: " ++ exn_str e) ;;;
       ret []).

Definition load_text_file (file_path : string) : M string :=
  try_except
    (text <- lift (open_read file_path) ;;
     ret text)
    (fun e =>
       print ("An error occurred during text file loading: " ++ exn_str e) ;;;
       ret "").

Definition augment_file_with_synonyms (file_path : string)
    (augmentation_factor : Z) (probability : pyprob) (progress : bool)
  : M (list string) :=
  try_except
    (text <- load_text_file file_path ;;
     augmented_text <-
       augment_text_with_synonyms text augmentation_factor probability
                                  progress ;;
     ret augmented_text)
    (fun e =>
       print ("An error occurred during text file augmentation: "
              ++ exn_str e) ;;;
       ret []).

Definition insert_random_word (text word : string) : M string :=
  try_except
    (words <- lift (word_tokenize text) ;;
     i <- random_randint 0 (Z.of_nat (List.length words)) ;;
     let words := list_insert words i word in
     let modified_text := join " " words in
     ret modified_text)
    (fun e =>
       print ("An error occurred during word insertion: " ++ exn_str e) ;;;
       ret text).

Definition delete_random_word (text : string) : M string :=
  try_except
    (words <- lift (word_tokenize text) ;;
     words <-
       (if (1 <? List.length words)%nat
        then i <- random_randint 0 (Z.of_nat (List.length words) - 1) ;;
             list_pop words i
        else ret words) ;;
     let modified_text := join " " words in
     ret modified_text)
    (fun e =>
       print ("An error occurred during word deletion: " ++ exn_str e) ;;;
       ret text).

Definition insert_synonym (text word : string) : M string :=
  try_except
    (synonym <- replace_word_with_synonym word ;;
     let modified_text := str_replace text word synonym in
     ret modified_text)
    (fun e =>
       print ("An error occurred during synonym insertion: " ++ exn_str e) ;;;
       ret text).

(** The list comprehension of line 246. *)
Fixpoint paraphrase_tokens (tagged_tokens : list (string * string))
  : M (list string) :=
  match tagged_tokens with
  | [] => ret []
  | (token, tag) :: rest =>
      out <-
        (if startswith_any ["VB"; "NN"; "JJ"] tag
         then replace_word_with_synonym token
         else ret token) ;;
      outs <- paraphrase_tokens rest ;;
      ret (out :: outs)
  end.

Definition paraphrase (text : string) : M string :=
  try_except
    (tokens <- lift (word_tokenize text) ;;
     tagged_tokens <- lift (pos_tag tokens) ;;
     paraphrased_tokens <- paraphrase_tokens tagged_tokens ;;
     let paraphrased_text := join " " paraphrased_tokens in
     ret paraphrased_text)
    (fun e =>
       print ("An error occurred during paraphrasing: " ++ exn_str e) ;;;
       ret text).

Definition crop (im : image) (b : box) : M image := Image_crop im b.

Definition random_crop (im : image) (size : Z * Z) : M image :=
  let '(width, height) := image_size im in
  left_ <- random_randint 0 (width - fst size) ;;
  upper <- random_randint 0 (height - snd size) ;;
  let right_ := (left_ + fst size)%Z in
  let lower := (upper + snd size)%Z in
  crop im (left_, upper, right_, lower).

(** The loop over the sentences (lines 367-372). *)
Fixpoint shuffle_sentences (pbar : progress_bar) (text : list string)
    (shuffled_text : list string) : M (list string) :=
  match text with
  | [] => ret shuffled_text
  | sentence :: text' =>
      let words := split sentence in
      shuffled_words <- random_sample words (List.length words) ;;
      let shuffled_sentence := join " " shuffled_words in
      pbar_update pbar 1 ;;;
      shuffle_sentences pbar text' (shuffled_text ++ [shuffled_sentence])
  end.

(** [shuffle_words] under a given binding of the global name [tqdm]. *)
Definition shuffle_words_with (tqdm_binding : pyobj) (text : list string)
  : M (list string) :=
  pbar <- call_bar tqdm_binding (List.length text) "Shuffling Words" ;;
  shuffled_text <- shuffle_sentences pbar text [] ;;
  ret shuffled_text.

Definition shuffle_words (text : list string) : M (list string) :=
  shuffle_words_with tqdm text.

(** *** What the statements below speak of *)

(** Every lemma name WordNet holds for a word; none when the lookup
    fails. *)
Definition lemma_names (word : string) : list string :=
  match wordnet_synsets word with
  | Returned synsets => concat synsets
  | Raised _ => []
  end.

(** [out] is a lemma name of [token], or [token] itself when it has
    none. *)
Definition synonym_or_self (token out : string) : Prop :=
  match lemma_names token with
  | [] => out = token
  | _ :: _ => In out (lemma_names token)
  end.

(** What the paraphraser may write for a tagged token. *)
Definition paraphrased (tagged : string * string) (out : string) : Prop :=
  if startswith_any ["VB"; "NN"; "JJ"] (snd tagged)
  then synonym_or_self (fst tagged) out
  else out = fst tagged.

(** What the augmentation may write for a token: the token, or what
    Synonym Substitution gives for it. *)
Definition augmented (token out : string) : Prop :=
  out = token \/ synonym_or_self token out.

(** A variant of the tokens under a relation between a token and
    what is written for it: one output per token, in order, joined by
    single spaces. *)
Definition variant_of (R : string -> string -> Prop) (tokens : list string)
    (variant : string) : Prop :=
  exists outs, variant = join " " outs /\ Forall2 R tokens outs.

Definition flip_horizontal (im : image) : image :=
  Image_transpose im FLIP_LEFT_RIGHT.

Definition flip_vertical (im : image) : image :=
  Image_transpose im FLIP_TOP_BOTTOM.

Definition rotate (im : image) (angle : Q) : M image :=
  rotated_image <- lift (Image_rotate_expand im angle) ;;
  crop rotated_image (0, 0, img_width im, img_height im)%Z.

(** ** Running a computation step by step *)

Lemma bind_returned {A B} (m : M A) (k : A -> M B) (w w' : world) (a : A) :
  m w = (Returned a, w') -> bind m k w = k a w'.
Proof. intros H. unfold bind. now rewrite H. Qed.

Lemma bind_raised {A B} (m : M A) (k : A -> M B) (w w' : world) (e : pyexn) :
  m w = (Raised e, w') -> bind m k w = (Raised e, w').
Proof. intros H. unfold bind. now rewrite H. Qed.

Lemma try_returned {A} (body : M A) (handler : pyexn -> M A)
    (w w' : world) (a : A) :
  body w = (Returned a, w') -> try_except body handler w = (Returned a, w').
Proof. intros H. unfold try_except. now rewrite H. Qed.

Lemma try_raised {A} (body : M A) (handler : pyexn -> M A)
    (w w' : world) (e : pyexn) :
  body w = (Raised e, w') -> try_except body handler w = handler e w'.
Proof. intros H. unfold try_except. now rewrite H. Qed.

Lemma random_random_run (w : world) :
  random_random w
  = (Returned (Z.of_N (current_variate w mod two53) # 9007199254740992),
     consume_variate w).
Proof. reflexivity. Qed.

(** [step H] runs the first action of a sequence, [H] telling what
    it returns. *)
Ltac step H := rewrite (bind_returned _ _ _ _ _ H).

(** ** Basic facts *)

Lemma collect_inner (syn synonyms : list string) :
  fold_left (fun synonyms name => synonyms ++ [name]) syn synonyms
  = synonyms ++ syn.
Proof.
  revert synonyms.
  induction syn as [|name syn IH]; intros synonyms; simpl.
  - now rewrite app_nil_r.
  - rewrite IH, <- app_assoc. reflexivity.
Qed.

Lemma collect_outer (synsets : list (list string)) (synonyms : list string) :
  fold_left
    (fun synonyms syn =>
       fold_left (fun synonyms name => synonyms ++ [name]) syn synonyms)
    synsets synonyms
  = synonyms ++ concat synsets.
Proof.
  revert synonyms.
  induction synsets as [|syn synsets IH]; intros synonyms; simpl.
  - now rewrite app_nil_r.
  - rewrite IH, collect_inner, <- app_assoc. reflexivity.
Qed.

(** The two loops gather every lemma name of every synset, in order. *)
Lemma collect_synonyms_concat (synsets : list (list string)) :
  collect_synonyms synsets = concat synsets.
Proof. unfold collect_synonyms. now rewrite collect_outer. Qed.

Lemma randbelow_run (n : N) (w : world) :
  randbelow n w = (Returned (current_variate w mod n)%N, consume_variate w).
Proof. reflexivity. Qed.

Lemma random_choice_run (seq : list string) (w : world) :
  seq <> [] ->
  random_choice seq w
  = (Returned (nth (N.to_nat (current_variate w mod N.of_nat (List.length seq)))
                   seq ""),
     consume_variate w).
Proof. destruct seq; [congruence | reflexivity]. Qed.

Lemma choice_index_in_range (v : N) (len : nat) :
  (0 < len)%nat -> (N.to_nat (v mod N.of_nat len) < len)%nat.
Proof.
  intros Hlen.
  assert (v mod N.of_nat len < N.of_nat len)%N by (apply N.mod_lt; lia).
  lia.
Qed.

Lemma random_randint_run (a b : Z) (w : world) :
  (a <= b)%Z ->
  random_randint a b w
  = (Returned (a + Z.of_N (current_variate w mod Z.to_N (b - a + 1)))%Z,
     consume_variate w).
Proof.
  intros Hab. unfold random_randint.
  destruct (Z.ltb_spec b a); [lia | reflexivity].
Qed.

Lemma random_randint_bounds (a b : Z) (v : N) :
  (a <= b)%Z ->
  (a <= a + Z.of_N (v mod Z.to_N (b - a + 1)) <= b)%Z.
Proof.
  intros Hab.
  assert (Hlt : (v mod Z.to_N (b - a + 1) < Z.to_N (b - a + 1))%N)
    by (apply N.mod_lt; lia).
  apply N2Z.inj_lt in Hlt. rewrite Z2N.id in Hlt by lia.
  pose proof (N2Z.is_nonneg (v mod Z.to_N (b - a + 1))).
  lia.
Qed.

(** What [replace_word_with_synonym] does, by the answer of WordNet. *)
Lemma replace_word_no_synonym (word : string) (synsets : list (list string))
    (w : world) :
  wordnet_synsets word = Returned synsets ->
  concat synsets = [] ->
  replace_word_with_synonym word w = (Returned word, w).
Proof.
  intros Hlook Hnone.
  unfold replace_word_with_synonym, try_except, bind, lift.
  rewrite Hlook, collect_synonyms_concat, Hnone. reflexivity.
Qed.

Lemma replace_word_some_synonym (word : string)
    (synsets : list (list string)) (w : world) :
  wordnet_synsets word = Returned synsets ->
  concat synsets <> [] ->
  replace_word_with_synonym word w
  = (Returned
       (nth (N.to_nat (current_variate w
                       mod N.of_nat (List.length (concat synsets))))
            (concat synsets) ""),
     consume_variate w).
Proof.
  intros Hlook Hsome.
  unfold replace_word_with_synonym, try_except, bind, lift.
  rewrite Hlook, collect_synonyms_concat.
  destruct (concat synsets) as [|s0 rest] eqn:E; [congruence|].
  reflexivity.
Qed.


(** ** Splitting on whitespace *)

Lemma join_cons (sep x : string) (rest : list string) :
  rest <> [] -> join sep (x :: rest) = (x ++ sep ++ join sep rest)%string.
Proof. destruct rest; [congruence | reflexivity]. Qed.

Lemma scan_tokens (s : string) :
  has_space (fst (scan s)) = false /\ Forall is_token (snd (scan s)).
Proof.
  induction s as [|c s [IHcur IHtoks]]; simpl.
  - split; [reflexivity | constructor].
  - destruct (scan s) as [cur toks]; simpl in *.
    destruct (is_space c) eqn:Hc; simpl.
    + split; [reflexivity|].
      destruct cur; simpl; [exact IHtoks|].
      constructor; [|exact IHtoks]. split; [discriminate | exact IHcur].
    + split; [now rewrite Hc | exact IHtoks].
Qed.

(** What [split] gives are tokens. *)
Lemma split_tokens (s : string) : Forall is_token (split s).
Proof.
  unfold split. destruct (scan_tokens s) as [Hcur Htoks].
  destruct (scan s) as [cur toks]; simpl in *.
  destruct cur; simpl; [exact Htoks|].
  constructor; [|exact Htoks]. split; [discriminate | exact Hcur].
Qed.

Lemma string_app_empty (a : string) : (a ++ EmptyString)%string = a.
Proof. induction a; simpl; congruence. Qed.

Lemma scan_token_app (t s : string) :
  has_space t = false ->
  scan (t ++ s) = ((t ++ fst (scan s))%string, snd (scan s)).
Proof.
  induction t as [|c t IH]; intros Ht; simpl in *.
  - now destruct (scan s).
  - apply orb_false_elim in Ht. destruct Ht as [Hc Ht].
    rewrite (IH Ht), Hc. reflexivity.
Qed.

Lemma split_token_blank (t s : string) :
  is_token t -> split (t ++ " " ++ s) = t :: split s.
Proof.
  intros [Hne Ht]. unfold split.
  rewrite (scan_token_app t _ Ht).
  change (scan (" " ++ s)) with (scan (String " " s)).
  cbn [scan]. destruct (scan s) as [cur toks].
  change (is_space " ") with true. cbn [fst snd].
  rewrite string_app_empty.
  destruct t as [|c t]; [congruence|]. reflexivity.
Qed.

Lemma split_token (t : string) : is_token t -> split t = [t].
Proof.
  intros [Hne Ht]. unfold split.
  pose proof (scan_token_app t EmptyString Ht) as H.
  rewrite string_app_empty in H. simpl in H.
  rewrite string_app_empty in H. rewrite H.
  destruct t as [|c t]; [congruence | reflexivity].
Qed.

(** Tokens joined by single spaces split back into themselves. *)
Lemma split_join (tokens : list string) :
  Forall is_token tokens -> split (join " " tokens) = tokens.
Proof.
  induction tokens as [|t tokens IH]; intros Htoks; [reflexivity|].
  pose proof (Forall_inv Htoks) as Ht.
  pose proof (Forall_inv_tail Htoks) as Hrest.
  destruct tokens as [|t' tokens].
  - simpl. now apply split_token.
  - rewrite join_cons by discriminate.
    rewrite split_token_blank by exact Ht. now rewrite IH.
Qed.

(** The normal form of a text: its tokens joined by single spaces.
    Normalizing keeps the tokens, and a second time changes nothing. *)
Lemma normalize_keeps_tokens (text : string) :
  split (join " " (split text)) = split text.
Proof. apply split_join, split_tokens. Qed.

(** ** The augmentation loops *)

(** A draw of [random.random()] is never below a probability of
    zero, however the zero is written. *)
Lemma float_lt_zero (v : N) (d : positive) (w : world) :
  float_lt (Z.of_N (v mod two53) # 9007199254740992) (PNumber (0 # d)) w
  = (Returned false, w).
Proof.
  unfold float_lt, ret. do 2 f_equal.
  apply negb_false_iff, Qle_bool_iff.
  unfold Qle; simpl.
  pose proof (N2Z.is_nonneg (v mod two53)). nia.
Qed.

Lemma report_progress_run (progress : bool) (k num_tokens : nat)
    (start_time : Q) (w : world) :
  exists w',
    (if progress
     then elapsed_time <- elapsed_since start_time ;;
          print_progress k num_tokens elapsed_time
     else ret tt) w = (Returned tt, w')
    /\ rand_tape w' = rand_tape w /\ rand_pos w' = rand_pos w.
Proof.
  destruct progress.
  - eexists. split; [reflexivity | split; reflexivity].
  - exists w. repeat split.
Qed.

Lemma augment_tokens_zero (d : positive) (progress : bool) (num_tokens : nat)
    (start_time : Q) (tokens : list string) :
  forall (augmented_tokens : list string) (processed_tokens : nat) (w : world),
  exists w',
    augment_tokens (PNumber (0 # d)) progress num_tokens start_time tokens
                   augmented_tokens processed_tokens w
    = (Returned (augmented_tokens ++ tokens,
                 (processed_tokens + List.length tokens)%nat), w')
    /\ rand_pos w' = (rand_pos w + List.length tokens)%nat.
Proof.
  induction tokens as [|token tokens IH]; intros acc k w.
  - exists w. simpl. unfold ret.
    now rewrite app_nil_r, !Nat.add_0_r.
  - simpl.
    step (random_random_run w).
    step (float_lt_zero (current_variate w) d (consume_variate w)).
    rewrite (bind_returned _ _ _ _ (acc ++ [token]) eq_refl).
    destruct (report_progress_run progress (S k) num_tokens start_time
                (consume_variate w)) as (w1 & Hrep & _ & Hpos1).
    step Hrep.
    destruct (IH (acc ++ [token]) (S k) w1) as (w' & Hrun & Hpos).
    exists w'. split.
    + rewrite Hrun, <- app_assoc. simpl. do 3 f_equal. lia.
    + rewrite Hpos, Hpos1. simpl. lia.
Qed.

Lemma augment_passes_zero (d : positive) (progress : bool) (num_tokens : nat)
    (start_time : Q) (tokens : list string) (passes : nat) :
  forall (augmented_text : list string) (processed_tokens : nat) (w : world),
  exists w',
    augment_passes (PNumber (0 # d)) progress num_tokens start_time tokens
                   passes augmented_text processed_tokens w
    = (Returned (augmented_text ++ repeat (join " " tokens) passes), w').
Proof.
  induction passes as [|passes IH]; intros acc k w.
  - exists w. simpl. unfold ret. now rewrite app_nil_r.
  - simpl.
    destruct (augment_tokens_zero d progress num_tokens start_time tokens
                [] k w) as (w1 & Hrun & _).
    step Hrun. simpl.
    destruct (IH (acc ++ [join " " tokens]) (k + List.length tokens)%nat w1)
      as (w' & Hrest).
    exists w'. rewrite Hrest, <- app_assoc. reflexivity.
Qed.

Lemma finish_progress_run (progress : bool) (w : world) :
  exists w',
    (if progress
     then print_end spaces100 carriage_return ;;;
          print "Augmentation complete."
     else ret tt) w = (Returned tt, w').
Proof. destruct progress; eexists; reflexivity. Qed.

(** With a probability of zero every pass writes the tokens as they
    are.  A factor below zero asks for no pass at all: [range] is
    empty. *)
Lemma augment_probability_zero_any_factor (text : string)
    (augmentation_factor : Z) (d : positive) (progress : bool) (w : world) :
  result (augment_text_with_synonyms text augmentation_factor
                                     (PNumber (0 # d)) progress w)
  = Returned (repeat (join " " (split text)) (Z.to_nat augmentation_factor)).
Proof.
  unfold augment_text_with_synonyms.
  destruct (augment_passes_zero d progress (List.length (split text))
              (clock_tape w (clock_pos w)) (split text)
              (Z.to_nat augmentation_factor) [] 0%nat
              (snd (time_time w))) as (w1 & Hpasses).
  destruct (finish_progress_run progress w1) as (w2 & Hfin).
  erewrite try_returned; [reflexivity|].
  rewrite (bind_returned _ _ w w tt eq_refl).
  rewrite (bind_returned _ _ _ _ _ (eq_refl : time_time w = (_, snd (time_time w)))).
  step Hpasses. step Hfin. reflexivity.
Qed.

(** C3. With a probability of zero, the augmentation returns as many
    items as the augmentation factor asks for, each one the tokens of
    the text joined by single spaces: no token is replaced, and
    WordNet is not consulted. *)
Theorem augment_probability_zero_copies (text : string) (n : nat)
    (d : positive) (progress : bool) (w : world) :
  result (augment_text_with_synonyms text (Z.of_nat n) (PNumber (0 # d))
                                     progress w)
  = Returned (repeat (join " " (split text)) n).
Proof.
  rewrite augment_probability_zero_any_factor. now rewrite Nat2Z.id.
Qed.

(** C2. When WordNet answers with lemma names for a word,
    [replace_word_with_synonym] returns one of them; when it answers
    with none, the word comes back as it was, and nothing is drawn
    or printed. *)
Theorem replace_word_with_synonym_member (word : string)
    (synsets : list (list string)) (w : world) :
  wordnet_synsets word = Returned synsets ->
  (concat synsets <> [] ->
   exists synonym,
     result (replace_word_with_synonym word w) = Returned synonym
     /\ In synonym (concat synsets))
  /\ (concat synsets = [] ->
      replace_word_with_synonym word w = (Returned word, w)).
Proof.
  intros Hlook. split.
  - intros Hsome.
    rewrite (replace_word_some_synonym word synsets w Hlook Hsome).
    eexists. split; [reflexivity|].
    apply nth_In, choice_index_in_range.
    destruct (concat synsets); [congruence | simpl; lia].
  - intros Hnone. now apply replace_word_no_synonym with synsets.
Qed.

(** C1. What the code does with [probability=None], where an error
    is to reach the caller: the [ValueError] of line 78 is raised
    before the text is split, the clock read or anything drawn, but
    under the function's own handler, which catches it; one line is
    printed and the empty list is returned. *)
Theorem augment_none_logged_and_empty (text : string)
    (augmentation_factor : Z) (progress : bool) (w : world) :
  augment_text_with_synonyms text augmentation_factor PNone progress w
  = (Returned [],
     mk_world (rand_tape w) (rand_pos w) (clock_tape w) (clock_pos w)
       (stdout w ++
        [Printed
           ("An error occurred during text augmentation: " ++
            "Probability value cannot be of NoneType. Choose a float from 0 to 1")
           newline])).
Proof. reflexivity. Qed.

(** ** Files *)

Lemma load_text_file_unreadable (file_path : string) (e : pyexn) (w : world) :
  open_read file_path = Raised e ->
  exists w', load_text_file file_path w = (Returned "", w').
Proof.
  intros Hopen. unfold load_text_file.
  eexists. erewrite try_raised.
  - reflexivity.
  - erewrite bind_raised; [reflexivity|].
    unfold lift. rewrite Hopen. reflexivity.
Qed.

Lemma augment_tokens_none (probability : pyprob) (progress : bool)
    (num_tokens : nat) (start_time : Q) (augmented_tokens : list string)
    (processed_tokens : nat) (w : world) :
  augment_tokens probability progress num_tokens start_time []
                 augmented_tokens processed_tokens w
  = (Returned (augmented_tokens, processed_tokens), w).
Proof. reflexivity. Qed.

Lemma augment_passes_no_tokens (probability : pyprob) (progress : bool)
    (num_tokens : nat) (start_time : Q) (passes : nat) :
  forall (augmented_text : list string) (processed_tokens : nat) (w : world),
    augment_passes probability progress num_tokens start_time [] passes
                   augmented_text processed_tokens w
    = (Returned (augmented_text ++ repeat "" passes), w).
Proof.
  induction passes as [|passes IH]; intros acc k w; simpl.
  - unfold ret. now rewrite app_nil_r.
  - step (augment_tokens_none probability progress num_tokens start_time
            [] k w).
    simpl. rewrite IH, <- app_assoc. reflexivity.
Qed.

Lemma augment_empty_text (n : nat) (probability : pyprob) (progress : bool)
    (w : world) :
  probability <> PNone ->
  exists w',
    augment_text_with_synonyms "" (Z.of_nat n) probability progress w
    = (Returned (repeat "" n), w').
Proof.
  intros Hprob. unfold augment_text_with_synonyms.
  destruct (finish_progress_run progress (snd (time_time w))) as (w2 & Hfin).
  exists w2. apply try_returned.
  assert (Hguard :
    (match probability with
     | PNone =>
         raise (ValueError
           "Probability value cannot be of NoneType. Choose a float from 0 to 1")
     | _ => ret tt
     end) w = (Returned tt, w))
    by (destruct probability; [congruence | reflexivity | reflexivity]).
  step Hguard.
  rewrite (bind_returned _ _ _ _ _
             (eq_refl : time_time w = (_, snd (time_time w)))).
  rewrite Nat2Z.id. change (split "") with (@nil string).
  step (augment_passes_no_tokens probability progress 0
          (clock_tape w (clock_pos w)) n [] 0%nat (snd (time_time w))).
  step Hfin. reflexivity.
Qed.

(** C10. For a path that cannot be opened or read, a count [n] and
    any probability other than [None], [augment_file_with_synonyms]
    returns [n] empty strings. *)
Theorem augment_unreadable_file_empty_strings (file_path : string)
    (e : pyexn) (n : nat) (probability : pyprob) (progress : bool)
    (w : world) :
  open_read file_path = Raised e ->
  probability <> PNone ->
  result (augment_file_with_synonyms file_path (Z.of_nat n) probability
                                     progress w)
  = Returned (repeat "" n).
Proof.
  intros Hopen Hprob. unfold augment_file_with_synonyms.
  destruct (load_text_file_unreadable file_path e w Hopen) as (w1 & Hload).
  destruct (augment_empty_text n probability progress w1 Hprob)
    as (w2 & Haug).
  erewrite try_returned; [reflexivity|].
  step Hload. step Haug. reflexivity.
Qed.

(** ** Shuffling *)

(** C9. Whatever list it is given, [shuffle_words] raises the
    [TypeError] of calling a module, before anything is drawn or
    printed; it never returns. *)
Theorem shuffle_words_raises_type_error (text : list string) (w : world) :
  shuffle_words text w
  = (Raised (TypeError "'module' object is not callable"), w).
Proof. reflexivity. Qed.

(** ** Progress reporting does not touch the result *)

Lemma agree_ret {A} (a : A) : agree (ret a) (ret a).
Proof. intros w1 w2 H. split; [reflexivity | exact H]. Qed.

Lemma agree_raise {A} (e : pyexn) : agree (@raise A e) (raise e).
Proof. intros w1 w2 H. split; [reflexivity | exact H]. Qed.

Lemma agree_lift {A} (o : outcome A) : agree (lift o) (lift o).
Proof. intros w1 w2 H. split; [reflexivity | exact H]. Qed.

Lemma agree_bind {A B} (m1 m2 : M A) (k1 k2 : A -> M B) :
  agree m1 m2 -> (forall a, agree (k1 a) (k2 a)) ->
  agree (bind m1 k1) (bind m2 k2).
Proof.
  intros Hm Hk w1 w2 H. unfold bind.
  destruct (Hm w1 w2 H) as [Hres Hw].
  destruct (m1 w1) as [[a1|e1] w1'], (m2 w2) as [[a2|e2] w2'];
    simpl in *; try discriminate.
  - injection Hres as ->. now apply Hk.
  - injection Hres as ->. split; [reflexivity | exact Hw].
Qed.

Lemma agree_try {A} (m1 m2 : M A) (h1 h2 : pyexn -> M A) :
  agree m1 m2 -> (forall e, agree (h1 e) (h2 e)) ->
  agree (try_except m1 h1) (try_except m2 h2).
Proof.
  intros Hm Hh w1 w2 H. unfold try_except.
  destruct (Hm w1 w2 H) as [Hres Hw].
  destruct (m1 w1) as [[a1|e1] w1'], (m2 w2) as [[a2|e2] w2'];
    simpl in *; try discriminate.
  - split; [exact Hres | exact Hw].
  - injection Hres as ->. now apply Hh.
Qed.

Lemma agree_print_end (text end_ : string) :
  agree (print_end text end_) (print_end text end_).
Proof. intros w1 w2 H. split; [reflexivity | exact H]. Qed.

Lemma agree_next_variate : agree next_variate next_variate.
Proof.
  intros w1 w2 [Htape Hpos]. unfold next_variate, current_variate; simpl.
  rewrite Htape, Hpos. repeat split; simpl; congruence.
Qed.

Lemma agree_random_random : agree random_random random_random.
Proof.
  apply agree_bind; [apply agree_next_variate | intros; apply agree_ret].
Qed.

Lemma agree_random_choice (seq : list string) :
  agree (random_choice seq) (random_choice seq).
Proof.
  destruct seq; [apply agree_raise|].
  apply agree_bind; [| intros; apply agree_ret].
  apply agree_bind; [apply agree_next_variate | intros; apply agree_ret].
Qed.

Lemma agree_float_lt (r : Q) (probability : pyprob) :
  agree (float_lt r probability) (float_lt r probability).
Proof.
  destruct probability; [apply agree_raise | apply agree_ret | apply agree_raise].
Qed.

Lemma agree_replace_word (word : string) :
  agree (replace_word_with_synonym word) (replace_word_with_synonym word).
Proof.
  apply agree_try.
  - apply agree_bind; [apply agree_lift|].
    intros synsets. destruct (collect_synonyms synsets); [apply agree_ret|].
    apply agree_bind; [apply agree_random_choice | intros; apply agree_ret].
  - intros e. apply agree_bind; [apply agree_print_end | intros; apply agree_ret].
Qed.

(** Reporting progress, or not, ends in [tt] and leaves the draws. *)
Lemma agree_report (progress1 progress2 : bool) (k num_tokens : nat)
    (start1 start2 : Q) :
  agree
    (if progress1
     then elapsed_time <- elapsed_since start1 ;;
          print_progress k num_tokens elapsed_time
     else ret tt)
    (if progress2
     then elapsed_time <- elapsed_since start2 ;;
          print_progress k num_tokens elapsed_time
     else ret tt).
Proof.
  intros w1 w2 H.
  destruct progress1, progress2; (split; [reflexivity | exact H]).
Qed.

Lemma agree_finish (progress1 progress2 : bool) :
  agree
    (if progress1
     then print_end spaces100 carriage_return ;;;
          print "Augmentation complete."
     else ret tt)
    (if progress2
     then print_end spaces100 carriage_return ;;;
          print "Augmentation complete."
     else ret tt).
Proof.
  intros w1 w2 H.
  destruct progress1, progress2; (split; [reflexivity | exact H]).
Qed.

Lemma agree_time_time_start {B} (k1 k2 : Q -> M B) :
  (forall t1 t2, agree (k1 t1) (k2 t2)) ->
  agree (bind time_time k1) (bind time_time k2).
Proof.
  intros Hk w1 w2 H. unfold bind, time_time.
  apply Hk. exact H.
Qed.

Lemma agree_augment_tokens (probability : pyprob)
    (progress1 progress2 : bool) (num_tokens : nat) (start1 start2 : Q)
    (tokens : list string) :
  forall (augmented_tokens : list string) (processed_tokens : nat),
    agree
      (augment_tokens probability progress1 num_tokens start1 tokens
                      augmented_tokens processed_tokens)
      (augment_tokens probability progress2 num_tokens start2 tokens
                      augmented_tokens processed_tokens).
Proof.
  induction tokens as [|token tokens IH]; intros acc k; simpl.
  - apply agree_ret.
  - apply agree_bind; [apply agree_random_random | intros r].
    apply agree_bind; [apply agree_float_lt | intros below].
    apply agree_bind.
    + destruct below; [| apply agree_ret].
      apply agree_bind; [apply agree_replace_word | intros; apply agree_ret].
    + intros acc'. apply agree_bind; [apply agree_report | intros _].
      apply IH.
Qed.

Lemma agree_augment_passes (probability : pyprob)
    (progress1 progress2 : bool) (num_tokens : nat) (start1 start2 : Q)
    (tokens : list string) (passes : nat) :
  forall (augmented_text : list string) (processed_tokens : nat),
    agree
      (augment_passes probability progress1 num_tokens start1 tokens passes
                      augmented_text processed_tokens)
      (augment_passes probability progress2 num_tokens start2 tokens passes
                      augmented_text processed_tokens).
Proof.
  induction passes as [|passes IH]; intros acc k; simpl.
  - apply agree_ret.
  - apply agree_bind; [apply agree_augment_tokens | intros [toks k']].
    apply IH.
Qed.

Lemma agree_augment_text (text : string) (augmentation_factor : Z)
    (probability : pyprob) (progress1 progress2 : bool) :
  agree
    (augment_text_with_synonyms text augmentation_factor probability progress1)
    (augment_text_with_synonyms text augmentation_factor probability progress2).
Proof.
  unfold augment_text_with_synonyms. apply agree_try.
  - apply agree_bind.
    + destruct probability; [apply agree_raise | apply agree_ret | apply agree_ret].
    + intros _. apply agree_time_time_start. intros t1 t2.
      apply agree_bind; [apply agree_augment_passes | intros augmented].
      apply agree_bind; [apply agree_finish | intros; apply agree_ret].
  - intros e. apply agree_bind; [apply agree_print_end | intros; apply agree_ret].
Qed.

(** C8. Two runs of [augment_text_with_synonyms] on the same
    arguments that start from the same draws return the same list
    (or both return the empty list of the handler), whatever the two
    progress flags, the two clocks and what was printed before; and
    they have consumed the same draws. *)
Theorem augment_progress_does_not_alter_result (text : string)
    (augmentation_factor : Z) (probability : pyprob)
    (progress1 progress2 : bool) (w1 w2 : world) :
  same_draws w1 w2 ->
  result (augment_text_with_synonyms text augmentation_factor probability
                                     progress1 w1)
  = result (augment_text_with_synonyms text augmentation_factor probability
                                       progress2 w2)
  /\ same_draws
       (final (augment_text_with_synonyms text augmentation_factor
                                          probability progress1 w1))
       (final (augment_text_with_synonyms text augmentation_factor
                                          probability progress2 w2)).
Proof.
  intros H.
  exact (agree_augment_text text augmentation_factor probability
           progress1 progress2 w1 w2 H).
Qed.

(** ** Cropping *)

Lemma random_crop_run (im : image) (cw ch : Z) (w : world) :
  (cw <= img_width im)%Z ->
  (ch <= img_height im)%Z ->
  let left_ :=
    Z.of_N (current_variate w mod Z.to_N (img_width im - cw + 1)) in
  let upper :=
    Z.of_N (current_variate (consume_variate w)
            mod Z.to_N (img_height im - ch + 1)) in
  random_crop im (cw, ch) w
  = crop im (left_, upper, left_ + cw, upper + ch)%Z
         (consume_variate (consume_variate w)).
Proof.
  intros Hw Hh left_ upper.
  unfold random_crop, image_size. cbn [fst snd].
  rewrite (bind_returned _ _ _ _ _
             (random_randint_run 0 (img_width im - cw) w ltac:(lia))).
  rewrite (bind_returned _ _ _ _ _
             (random_randint_run 0 (img_height im - ch) (consume_variate w)
                ltac:(lia))).
  rewrite !Z.sub_0_r, !Z.add_0_l. reflexivity.
Qed.

(** A box inside the image crops to an image of the size of the box,
    holding the pixels of the source under the box. *)
Lemma bomb_check_passes (size : Z * Z) (w : world) :
  (Z.max 1 (fst size) * Z.max 1 (snd size) <= 2 * MAX_IMAGE_PIXELS)%Z ->
  decompression_bomb_check size w = (Returned tt, w).
Proof.
  intros Hsize. unfold decompression_bomb_check.
  destruct (Z.ltb_spec (2 * MAX_IMAGE_PIXELS)
              (Z.max 1 (fst size) * Z.max 1 (snd size))); [lia|].
  reflexivity.
Qed.

Lemma bomb_check_raises (size : Z * Z) (w : world) :
  (2 * MAX_IMAGE_PIXELS < Z.max 1 (fst size) * Z.max 1 (snd size))%Z ->
  exists e,
    decompression_bomb_check size w = (Raised e, w)
    /\ exn_class e = "DecompressionBombError".
Proof.
  intros Hsize. unfold decompression_bomb_check.
  destruct (Z.ltb_spec (2 * MAX_IMAGE_PIXELS)
              (Z.max 1 (fst size) * Z.max 1 (snd size))); [|lia].
  eexists. split; reflexivity.
Qed.

Lemma crop_region (im : image) (l u cw ch : Z) (w : world) :
  (0 <= cw)%Z -> (0 <= ch)%Z ->
  (Z.max 1 cw * Z.max 1 ch <= 2 * MAX_IMAGE_PIXELS)%Z ->
  (0 <= l)%Z -> (l + cw <= img_width im)%Z ->
  (0 <= u)%Z -> (u + ch <= img_height im)%Z ->
  exists cropped,
    crop im (l, u, l + cw, u + ch)%Z w = (Returned cropped, w)
    /\ image_size cropped = (cw, ch)
    /\ (forall x y, (0 <= x < cw)%Z -> (0 <= y < ch)%Z ->
          img_pixel cropped x y = img_pixel im (l + x) (u + y)).
Proof.
  intros Hcw Hch Hsize Hl Hr Hu Hd. unfold crop, Image_crop.
  destruct (Z.ltb_spec (l + cw) l); [lia|].
  destruct (Z.ltb_spec (u + ch) u); [lia|].
  rewrite (bind_returned _ _ w w tt)
    by (apply bomb_check_passes; cbn [fst snd];
        rewrite !Z.abs_eq by lia;
        replace (l + cw - l)%Z with cw by lia;
        replace (u + ch - u)%Z with ch by lia; exact Hsize).
  eexists. split; [reflexivity|].
  split; [unfold image_size; simpl; f_equal; lia|].
  intros x y Hx Hy. simpl.
  destruct (Z.leb_spec 0 (l + x)); [|lia].
  destruct (Z.ltb_spec (l + x) (img_width im)); [|lia].
  destruct (Z.leb_spec 0 (u + y)); [|lia].
  destruct (Z.ltb_spec (u + y) (img_height im)); [|lia].
  reflexivity.
Qed.

(** C7 (as the code has it). For a crop size that fits in the image
    and is of no more pixels than PIL lets a crop have (twice
    [MAX_IMAGE_PIXELS], an empty side counting for one),
    [random_crop] returns an image of exactly that size.  Its left
    and upper offsets are the two variates drawn, reduced to the
    ranges [0 .. width - w] and [0 .. height - h], so a variate
    uniform on a range gives an offset uniform on it; the pixels are
    those of the source at that offset. *)
Theorem random_crop_exact_size (im : image) (cw ch : Z) (w : world) :
  (0 <= cw <= img_width im)%Z ->
  (0 <= ch <= img_height im)%Z ->
  (Z.max 1 cw * Z.max 1 ch <= 2 * MAX_IMAGE_PIXELS)%Z ->
  let left_ :=
    Z.of_N (current_variate w mod Z.to_N (img_width im - cw + 1)) in
  let upper :=
    Z.of_N (current_variate (consume_variate w)
            mod Z.to_N (img_height im - ch + 1)) in
  exists cropped,
    random_crop im (cw, ch) w
    = (Returned cropped, consume_variate (consume_variate w))
    /\ image_size cropped = (cw, ch)
    /\ (0 <= left_ <= img_width im - cw)%Z
    /\ (0 <= upper <= img_height im - ch)%Z
    /\ (forall x y, (0 <= x < cw)%Z -> (0 <= y < ch)%Z ->
          img_pixel cropped x y = img_pixel im (left_ + x) (upper + y)).
Proof.
  intros Hw Hh Hpixels left_ upper.
  assert (Hl : (0 <= left_ <= img_width im - cw)%Z).
  { pose proof (random_randint_bounds 0 (img_width im - cw)
                  (current_variate w) ltac:(lia)) as Hb.
    rewrite Z.sub_0_r, Z.add_0_l in Hb. exact Hb. }
  assert (Hu : (0 <= upper <= img_height im - ch)%Z).
  { pose proof (random_randint_bounds 0 (img_height im - ch)
                  (current_variate (consume_variate w)) ltac:(lia)) as Hb.
    rewrite Z.sub_0_r, Z.add_0_l in Hb. exact Hb. }
  rewrite random_crop_run by lia. fold left_ upper.
  destruct (crop_region im left_ upper cw ch
              (consume_variate (consume_variate w)))
    as (cropped & Hrun & Hsize & Hpix); try lia.
  exists cropped. repeat split; try assumption; lia.
Qed.

(** A crop that fits but is of more pixels than PIL lets a crop have
    is refused by [Image.crop], once both offsets are drawn. *)
Lemma random_crop_over_limit (im : image) (cw ch : Z) (w : world) :
  (0 <= cw <= img_width im)%Z ->
  (0 <= ch <= img_height im)%Z ->
  (2 * MAX_IMAGE_PIXELS < Z.max 1 cw * Z.max 1 ch)%Z ->
  exists e,
    random_crop im (cw, ch) w
    = (Raised e, consume_variate (consume_variate w))
    /\ exn_class e = "DecompressionBombError".
Proof.
  intros Hw Hh Hsize. rewrite random_crop_run by lia.
  unfold crop, Image_crop.
  match goal with
  | |- context [(?r <? ?l)%Z] =>
      destruct (Z.ltb_spec r l); [lia|]
  end.
  match goal with
  | |- context [(?r <? ?l)%Z] =>
      destruct (Z.ltb_spec r l); [lia|]
  end.
  match goal with
  | |- context [decompression_bomb_check ?size] =>
      destruct (bomb_check_raises size
                  (consume_variate (consume_variate w))) as (e & Hrun & Hcls)
  end.
  { cbn [fst snd]. rewrite !Z.abs_eq by lia.
    match goal with
    | |- (_ < Z.max 1 ?a * Z.max 1 ?b)%Z =>
        replace a with cw by lia; replace b with ch by lia
    end.
    exact Hsize. }
  exists e. split; [|exact Hcls].
  apply bind_raised. exact Hrun.
Qed.

(** Every offset of the valid range is drawn, each by the pair of
    variates equal to it. *)
Lemma random_crop_each_offset (im : image) (cw ch l u : Z) (w : world) :
  (0 <= cw)%Z -> (0 <= ch)%Z ->
  (Z.max 1 cw * Z.max 1 ch <= 2 * MAX_IMAGE_PIXELS)%Z ->
  (0 <= l <= img_width im - cw)%Z ->
  (0 <= u <= img_height im - ch)%Z ->
  current_variate w = Z.to_N l ->
  current_variate (consume_variate w) = Z.to_N u ->
  exists cropped,
    random_crop im (cw, ch) w
    = (Returned cropped, consume_variate (consume_variate w))
    /\ image_size cropped = (cw, ch)
    /\ (forall x y, (0 <= x < cw)%Z -> (0 <= y < ch)%Z ->
          img_pixel cropped x y = img_pixel im (l + x) (u + y)).
Proof.
  intros Hcw Hch Hsize Hl Hu Hv1 Hv2.
  rewrite random_crop_run by lia. rewrite Hv1, Hv2.
  rewrite !N.mod_small by lia. rewrite !Z2N.id by lia.
  apply crop_region; lia.
Qed.

(** ** Deleting a word *)

Lemma list_pop_run (words : list string) (i : nat) (w : world) :
  (i < List.length words)%nat ->
  list_pop words (Z.of_nat i) w
  = (Returned (firstn i words ++ skipn (S i) words), w).
Proof.
  intros Hi. unfold list_pop.
  destruct (Z.ltb_spec (Z.of_nat i) 0); [lia|].
  destruct (Z.ltb_spec (Z.of_nat i) 0); [lia|].
  destruct (Z.leb_spec (Z.of_nat (List.length words)) (Z.of_nat i)); [lia|].
  simpl. rewrite Nat2Z.id. reflexivity.
Qed.

Lemma delete_random_word_few (text : string) (words : list string)
    (w : world) :
  word_tokenize text = Returned words ->
  (List.length words <= 1)%nat ->
  delete_random_word text w = (Returned (join " " words), w).
Proof.
  intros Htok Hlen. unfold delete_random_word. apply try_returned.
  rewrite (bind_returned _ _ w w words)
    by (unfold lift; now rewrite Htok).
  destruct (Nat.ltb_spec 1 (List.length words)); [lia|].
  reflexivity.
Qed.

Lemma delete_random_word_many (text : string) (words : list string)
    (w : world) :
  word_tokenize text = Returned words ->
  (1 < List.length words)%nat ->
  let i := N.to_nat (current_variate w mod N.of_nat (List.length words)) in
  delete_random_word text w
  = (Returned (join " " (firstn i words ++ skipn (S i) words)),
     consume_variate w).
Proof.
  intros Htok Hlen i.
  assert (Hi : (i < List.length words)%nat)
    by (apply choice_index_in_range; lia).
  unfold delete_random_word. apply try_returned.
  rewrite (bind_returned _ _ w w words)
    by (unfold lift; now rewrite Htok).
  destruct (Nat.ltb_spec 1 (List.length words)); [|lia].
  rewrite (bind_returned _ _ w (consume_variate w)
             (firstn i words ++ skipn (S i) words)); [reflexivity|].
  rewrite (bind_returned _ _ _ _ _
             (random_randint_run 0 (Z.of_nat (List.length words) - 1) w
                ltac:(lia))).
  replace (Z.to_N (Z.of_nat (List.length words) - 1 - 0 + 1))
    with (N.of_nat (List.length words)) by lia.
  rewrite Z.add_0_l.
  replace (Z.of_N (current_variate w mod N.of_nat (List.length words)))
    with (Z.of_nat i) by (subst i; lia).
  apply list_pop_run, Hi.
Qed.

(** Every token can be the one removed, each by the variate equal to
    its index. *)
Lemma delete_random_word_each_index (text : string) (words : list string)
    (i : nat) (w : world) :
  word_tokenize text = Returned words ->
  (1 < List.length words)%nat ->
  (i < List.length words)%nat ->
  current_variate w = N.of_nat i ->
  delete_random_word text w
  = (Returned (join " " (firstn i words ++ skipn (S i) words)),
     consume_variate w).
Proof.
  intros Htok Hlen Hi Hv.
  rewrite (delete_random_word_many text words w Htok Hlen).
  rewrite Hv, N.mod_small by lia. now rewrite Nat2N.id.
Qed.

(** C4 (as the code has it). A text of at most one token comes back
    as its tokens rejoined: the token itself, or the empty string;
    that is the text itself when the text is exactly its token or is
    empty.  From a text of more tokens, the token at the index drawn
    (the variate reduced to [0 .. len - 1]) is removed and the others
    are rejoined with single spaces. *)
Theorem delete_random_word_rejoins_tokens (text : string)
    (words : list string) (w : world) :
  word_tokenize text = Returned words ->
  (words = [] -> delete_random_word text w = (Returned "", w))
  /\ (forall token, words = [token] ->
        delete_random_word text w = (Returned token, w))
  /\ ((List.length words <= 1)%nat -> join " " words = text ->
        delete_random_word text w = (Returned text, w))
  /\ ((1 < List.length words)%nat ->
        let i := N.to_nat (current_variate w
                           mod N.of_nat (List.length words)) in
        (i < List.length words)%nat
        /\ delete_random_word text w
           = (Returned (join " " (firstn i words ++ skipn (S i) words)),
              consume_variate w)).
Proof.
  intros Htok.
  pose proof (delete_random_word_few text words w Htok) as Hfew.
  split; [intros ->; now rewrite Hfew by (simpl; lia)|].
  split; [intros token ->; now rewrite Hfew by (simpl; lia)|].
  split; [intros Hlen Hjoin; now rewrite Hfew, Hjoin|].
  intros Hlen i. split.
  - apply choice_index_in_range. lia.
  - now apply delete_random_word_many.
Qed.

(** ** Paraphrasing *)

(** Synonym Substitution never raises: it returns a lemma name of
    the word, or the word itself when there is none or the lookup
    failed. *)
Lemma replace_word_total (word : string) (w : world) :
  exists out w',
    replace_word_with_synonym word w = (Returned out, w')
    /\ synonym_or_self word out.
Proof.
  unfold synonym_or_self, lemma_names.
  destruct (wordnet_synsets word) as [synsets|e] eqn:Hlook.
  - destruct (concat synsets) as [|s0 rest] eqn:Hnames.
    + exists word, w. split; [|reflexivity].
      now apply replace_word_no_synonym with synsets.
    + eexists _, _. split.
      * apply replace_word_some_synonym; [exact Hlook | congruence].
      * rewrite Hnames. apply nth_In, choice_index_in_range. simpl; lia.
  - eexists word, _. split; [|reflexivity].
    unfold replace_word_with_synonym. erewrite try_raised.
    + reflexivity.
    + apply bind_raised. unfold lift. rewrite Hlook. reflexivity.
Qed.

Lemma paraphrase_tokens_run (tagged_tokens : list (string * string)) :
  forall w, exists outs w',
    paraphrase_tokens tagged_tokens w = (Returned outs, w')
    /\ Forall2 paraphrased tagged_tokens outs.
Proof.
  induction tagged_tokens as [|[token tag] rest IH]; intros w.
  - exists [], w. split; [reflexivity | constructor].
  - assert (Hhead : exists out w1,
             (if startswith_any ["VB"; "NN"; "JJ"] tag
              then replace_word_with_synonym token
              else ret token) w = (Returned out, w1)
             /\ paraphrased (token, tag) out).
    { unfold paraphrased. cbn [fst snd].
      destruct (startswith_any ["VB"; "NN"; "JJ"] tag).
      - apply replace_word_total.
      - exists token, w. split; reflexivity. }
    destruct Hhead as (out & w1 & Hrun & Hout).
    destruct (IH w1) as (outs & w' & Hrest & Houts).
    exists (out :: outs), w'. split.
    + cbn [paraphrase_tokens]. step Hrun. step Hrest. reflexivity.
    + now constructor.
Qed.

(** C6. [paraphrase] tokenizes and tags the text; the tokens whose
    tag starts with VB, NN or JJ go through Synonym Substitution,
    the others are kept, one output per token and in order, and the
    outputs are joined with single spaces.  When the tokenizer or
    the tagger fails, the text is returned as it was. *)
Theorem paraphrase_substitutes_content_words (text : string) (w : world) :
  (forall tokens tagged_tokens,
      word_tokenize text = Returned tokens ->
      pos_tag tokens = Returned tagged_tokens ->
      exists paraphrased_tokens,
        result (paraphrase text w) = Returned (join " " paraphrased_tokens)
        /\ Forall2 paraphrased tagged_tokens paraphrased_tokens)
  /\ (forall e, word_tokenize text = Raised e ->
        result (paraphrase text w) = Returned text)
  /\ (forall tokens e,
        word_tokenize text = Returned tokens ->
        pos_tag tokens = Raised e ->
        result (paraphrase text w) = Returned text).
Proof.
  split; [|split].
  - intros tokens tagged Htok Htag.
    destruct (paraphrase_tokens_run tagged w) as (outs & w' & Hrun & Houts).
    exists outs. split; [|exact Houts].
    unfold paraphrase. erewrite try_returned; [reflexivity|].
    rewrite (bind_returned _ _ w w tokens)
      by (unfold lift; now rewrite Htok).
    rewrite (bind_returned _ _ w w tagged)
      by (unfold lift; now rewrite Htag).
    step Hrun. reflexivity.
  - intros e Htok. unfold paraphrase. erewrite try_raised.
    + reflexivity.
    + apply bind_raised. unfold lift. now rewrite Htok.
  - intros tokens e Htok Htag. unfold paraphrase. erewrite try_raised.
    + reflexivity.
    + rewrite (bind_returned _ _ w w tokens)
        by (unfold lift; now rewrite Htok).
      apply bind_raised. unfold lift. now rewrite Htag.
Qed.

(** ** Replacing a word by a synonym *)

Lemma prefix_app (old s : string) :
  prefix old s = true <-> exists rest, s = (old ++ rest)%string.
Proof.
  revert s. induction old as [|o old IH]; intros s; simpl.
  - split; [intros _; now exists s | intros _; now destruct s].
  - destruct s as [|c s'].
    + split; [discriminate | intros [rest H]; discriminate].
    + cbn [prefix]. destruct (ascii_dec o c) as [->|Hne].
      * split.
        -- intros H. apply IH in H. destruct H as [rest ->]. now exists rest.
        -- intros [rest H]. apply IH. exists rest. now injection H.
      * split; [discriminate|].
        intros [rest H]. injection H as H1 H2. congruence.
Qed.

Lemma replace_from_skip (old new a s : string) :
  replace_from old new (String.length a) (a ++ s) = replace_from old new 0 s.
Proof. induction a as [|c a IH]; simpl; [reflexivity | exact IH]. Qed.

Lemma join_head (sep p : string) (ps : list string) :
  exists tail, join sep (p :: ps) = (p ++ tail)%string.
Proof.
  destruct ps as [|q ps].
  - exists EmptyString. simpl. now rewrite string_app_empty.
  - eexists. reflexivity.
Qed.

Lemma string_app_assoc (a b c : string) :
  ((a ++ b) ++ c = a ++ b ++ c)%string.
Proof. induction a; simpl; congruence. Qed.

Lemma string_length_app (a b : string) :
  String.length (a ++ b) = (String.length a + String.length b)%nat.
Proof. induction a; simpl; congruence. Qed.

Lemma not_occurs_empty (old : string) :
  old <> EmptyString -> ~ occurs old EmptyString.
Proof.
  intros Hold (before & after & H).
  destruct before; [destruct old; [congruence | discriminate] | discriminate].
Qed.

(** A character that does not start an occurrence can be put before
    a piece free of occurrences. *)
Lemma not_occurs_cons (old : string) (c : ascii) (p tail : string) :
  prefix old (String c (p ++ tail)) = false ->
  ~ occurs old p ->
  ~ occurs old (String c p).
Proof.
  intros Hpre Hp (before & after & H).
  destruct before as [|b before].
  - simpl in H.
    assert (Hyes : prefix old (String c (p ++ tail)) = true).
    { apply prefix_app. exists (after ++ tail)%string.
      change (String c (p ++ tail)) with (String c p ++ tail)%string.
      rewrite H. apply string_app_assoc. }
    congruence.
  - injection H as _ H. apply Hp. now exists before, after.
Qed.

(** For a non-empty [old], the text is cut at the occurrences that
    are replaced: it is the pieces joined by [old], the result is the
    same pieces joined by [new], and no piece holds an occurrence. *)
Lemma replace_from_pieces (old new : string) :
  old <> EmptyString ->
  forall (n : nat) (s : string),
    (String.length s <= n)%nat ->
    exists pieces,
      pieces <> []
      /\ s = join old pieces
      /\ replace_from old new 0 s = join new pieces
      /\ Forall (fun piece => ~ occurs old piece) pieces.
Proof.
  intros Hold. induction n as [|n IH]; intros s Hlen.
  - destruct s; [|simpl in Hlen; lia].
    exists [EmptyString]. repeat split; try discriminate.
    constructor; [now apply not_occurs_empty | constructor].
  - destruct s as [|c s'].
    { exists [EmptyString]. repeat split; try discriminate.
      constructor; [now apply not_occurs_empty | constructor]. }
    cbn [replace_from].
    destruct (prefix old (String c s')) eqn:Hpre.
    + apply prefix_app in Hpre. destruct Hpre as [rest Hs].
      destruct old as [|o old']; [congruence|].
      injection Hs as -> ->.
      cbn [String.length]. rewrite Nat.sub_1_r, Nat.pred_succ.
      rewrite replace_from_skip.
      destruct (IH rest) as (pieces & Hne & Hjoin & Hrep & Hfree).
      { simpl in Hlen. rewrite string_length_app in Hlen. lia. }
      exists (EmptyString :: pieces). split; [discriminate|].
      rewrite !join_cons by exact Hne. split; [|split].
      * simpl. rewrite <- Hjoin. reflexivity.
      * simpl. rewrite Hrep. reflexivity.
      * constructor; [now apply not_occurs_empty | exact Hfree].
    + destruct (IH s') as (pieces & Hne & Hjoin & Hrep & Hfree).
      { simpl in Hlen. lia. }
      destruct pieces as [|p ps]; [congruence|].
      exists (String c p :: ps). split; [discriminate|].
      assert (Hshift : forall sep,
                 join sep (String c p :: ps) = String c (join sep (p :: ps))).
      { intros sep. destruct ps; reflexivity. }
      rewrite !Hshift. split; [|split].
      * now rewrite <- Hjoin.
      * now rewrite Hrep.
      * pose proof (Forall_inv Hfree) as Hp.
        pose proof (Forall_inv_tail Hfree) as Hps.
        constructor; [|exact Hps].
        destruct (join_head old p ps) as [tail Htail].
        apply not_occurs_cons with tail; [|exact Hp].
        rewrite <- Htail, <- Hjoin. exact Hpre.
Qed.

(** With an empty [old] the pieces are the characters, with an empty
    piece at each end. *)
Lemma replace_empty_pieces (new s : string) :
  exists rest,
    rest <> []
    /\ s = join EmptyString (EmptyString :: rest)
    /\ replace_empty new s = join new (EmptyString :: rest).
Proof.
  induction s as [|c s (rest & Hne & Hjoin & Hrep)].
  - exists [EmptyString]. repeat split; try discriminate.
    simpl. clear. induction new; simpl; congruence.
  - exists (String c EmptyString :: rest). split; [discriminate|].
    rewrite join_cons in Hjoin, Hrep by exact Hne.
    rewrite !(join_cons _ EmptyString) by discriminate.
    rewrite !(join_cons _ (String c EmptyString)) by exact Hne.
    simpl in *. split.
    + now rewrite <- Hjoin.
    + now rewrite Hrep.
Qed.

Lemma str_replace_pieces (s old new : string) :
  exists pieces,
    s = join old pieces
    /\ str_replace s old new = join new pieces
    /\ (old <> EmptyString -> Forall (fun piece => ~ occurs old piece) pieces).
Proof.
  unfold str_replace. destruct old as [|o old']; cbn [is_empty].
  - destruct (replace_empty_pieces new s) as (rest & _ & Hjoin & Hrep).
    exists (EmptyString :: rest).
    split; [exact Hjoin|]. split; [exact Hrep | congruence].
  - destruct (replace_from_pieces (String o old') new ltac:(discriminate)
                (String.length s) s (le_n _))
      as (pieces & _ & Hjoin & Hrep & Hfree).
    exists pieces.
    split; [exact Hjoin|]. split; [exact Hrep | intros _; exact Hfree].
Qed.

(** Replacing a word by itself changes nothing. *)
Lemma str_replace_same (s old : string) : str_replace s old old = s.
Proof.
  destruct (str_replace_pieces s old old) as (pieces & Hjoin & Hrep & _).
  congruence.
Qed.

(** C5. [insert_synonym] asks Synonym Substitution for one synonym
    of the word and replaces the occurrences of the word in the text
    by it, wherever they are in the text: the text is some pieces
    joined by the word, the result is the same pieces joined by the
    synonym, and (for a non-empty word) no piece holds an occurrence
    of the word.  When the word has no synonym, the text comes back
    unchanged. *)
Theorem insert_synonym_replaces_every_occurrence (text word : string)
    (w : world) :
  exists synonym w' pieces,
    replace_word_with_synonym word w = (Returned synonym, w')
    /\ insert_synonym text word w = (Returned (join synonym pieces), w')
    /\ text = join word pieces
    /\ (word <> EmptyString ->
        Forall (fun piece => ~ occurs word piece) pieces)
    /\ (lemma_names word = [] ->
        insert_synonym text word w = (Returned text, w')).
Proof.
  destruct (replace_word_total word w) as (synonym & w' & Hrun & Hsyn).
  destruct (str_replace_pieces text word synonym)
    as (pieces & Hjoin & Hrep & Hfree).
  assert (Hins : insert_synonym text word w
                 = (Returned (str_replace text word synonym), w')).
  { unfold insert_synonym. apply try_returned. step Hrun. reflexivity. }
  exists synonym, w', pieces.
  split; [exact Hrun|]. split; [now rewrite Hins, Hrep|].
  split; [exact Hjoin|]. split; [exact Hfree|].
  intros Hnone. unfold synonym_or_self in Hsyn. rewrite Hnone in Hsyn.
  rewrite Hins, Hsyn, str_replace_same. reflexivity.
Qed.

(** ** Shuffling, had the name been bound to the class *)

Lemma list_set_length (pool : list string) (j : nat) (x : string) :
  List.length (list_set pool j x) = List.length pool.
Proof.
  revert j. induction pool as [|y pool IH]; intros [|j]; simpl; auto.
Qed.

Lemma list_set_same (pool : list string) (j : nat) :
  list_set pool j (nth j pool "") = pool.
Proof.
  revert j. induction pool as [|y pool IH]; intros [|j]; simpl;
    try reflexivity.
  now rewrite IH.
Qed.

Lemma firstn_list_set (pool : list string) (j k : nat) (x : string) :
  firstn k (list_set pool j x) = list_set (firstn k pool) j x.
Proof.
  revert j k. induction pool as [|y pool IH]; intros [|j] [|k]; simpl;
    try reflexivity.
  now rewrite IH.
Qed.

Lemma firstn_snoc (pool : list string) (k : nat) :
  (k < List.length pool)%nat ->
  firstn (S k) pool = firstn k pool ++ [nth k pool ""].
Proof.
  revert k. induction pool as [|y pool IH]; intros k Hk; simpl in Hk.
  - lia.
  - destruct k as [|k]; [reflexivity|].
    change (firstn (S (S k)) (y :: pool)) with (y :: firstn (S k) pool).
    rewrite IH by lia. reflexivity.
Qed.

Lemma nth_firstn (pool : list string) (j k : nat) :
  (j < k)%nat -> nth j (firstn k pool) "" = nth j pool "".
Proof.
  revert j k. induction pool as [|y pool IH]; intros j k Hjk.
  - now rewrite firstn_nil.
  - destruct k as [|k]; [lia|]. destruct j as [|j]; [reflexivity|].
    simpl. apply IH. lia.
Qed.

(** Taking the item at [j] and filling its place with [x] leaves the
    items of the list and [x]. *)
Lemma pick_and_fill (items : list string) (j : nat) (x : string) :
  (j < List.length items)%nat ->
  Permutation.Permutation (nth j items "" :: list_set items j x)
                          (items ++ [x]).
Proof.
  revert j. induction items as [|y items IH]; intros j Hj; simpl in Hj.
  - lia.
  - destruct j as [|j]; simpl.
    + constructor. apply Permutation.Permutation_cons_append.
    + etransitivity; [apply Permutation.perm_swap|].
      constructor. apply IH. lia.
Qed.

Lemma sample_pool_permutation (k : nat) :
  forall (pool : list string) (w : world),
    (k <= List.length pool)%nat ->
    exists out w',
      sample_pool k pool k w = (Returned out, w')
      /\ Permutation.Permutation out (firstn k pool).
Proof.
  induction k as [|k IH]; intros pool w Hk.
  - exists [], w. split; [reflexivity | constructor].
  - cbn [sample_pool].
    step (randbelow_run (N.of_nat (S k)) w).
    set (j := N.to_nat (current_variate w mod N.of_nat (S k))).
    assert (Hj : (j < S k)%nat) by (apply choice_index_in_range; lia).
    replace (S k - 1)%nat with k by lia.
    set (pool' := list_set pool j (nth k pool "")).
    destruct (IH pool' (consume_variate w)) as (out & w' & Hrun & Hperm).
    { subst pool'. rewrite list_set_length. lia. }
    step Hrun. exists (nth j pool "" :: out), w'.
    split; [reflexivity|].
    rewrite firstn_snoc by lia.
    destruct (Nat.eq_dec j k) as [->|Hne].
    + subst pool'. rewrite list_set_same in Hperm.
      etransitivity; [constructor; exact Hperm|].
      apply Permutation.Permutation_cons_append.
    + subst pool'. rewrite firstn_list_set in Hperm.
      etransitivity; [constructor; exact Hperm|].
      rewrite <- (nth_firstn pool j k) by lia.
      apply pick_and_fill. rewrite length_firstn. lia.
Qed.

Lemma random_sample_permutation (population : list string) (w : world) :
  exists out w',
    random_sample population (List.length population) w = (Returned out, w')
    /\ Permutation.Permutation out population.
Proof.
  unfold random_sample. rewrite Nat.ltb_irrefl.
  destruct (sample_pool_permutation (List.length population) population w
              (le_n _)) as (out & w' & Hrun & Hperm).
  exists out, w'. split; [exact Hrun|].
  now rewrite firstn_all in Hperm.
Qed.

Lemma shuffle_sentences_run (pbar : progress_bar) (text : list string) :
  forall (shuffled_text : list string) (w : world),
  exists outs w',
    shuffle_sentences pbar text shuffled_text w
    = (Returned (shuffled_text ++ outs), w')
    /\ Forall2
         (fun sentence out =>
            exists shuffled_words,
              out = join " " shuffled_words
              /\ Permutation.Permutation shuffled_words (split sentence))
         text outs.
Proof.
  induction text as [|sentence text IH]; intros acc w.
  - exists [], w. split; [simpl; unfold ret; now rewrite app_nil_r|].
    constructor.
  - cbn [shuffle_sentences].
    destruct (random_sample_permutation (split sentence) w)
      as (shuffled & w1 & Hrun & Hperm).
    step Hrun.
    rewrite (bind_returned _ _ w1 w1 tt eq_refl).
    destruct (IH (acc ++ [join " " shuffled]) w1)
      as (outs & w' & Hrest & Houts).
    exists (join " " shuffled :: outs), w'. split.
    + rewrite Hrest, <- app_assoc. reflexivity.
    + constructor; [|exact Houts]. now exists shuffled.
Qed.

(** With [tqdm] bound to the class (as [from tqdm import tqdm]
    would), the body runs: one output per sentence, each the words
    of its sentence in some order. *)
Lemma shuffle_words_with_class (name : string) (text : list string)
    (w : world) :
  exists outs w',
    shuffle_words_with (PyClass name) text w = (Returned outs, w')
    /\ Forall2
         (fun sentence out =>
            exists shuffled_words,
              out = join " " shuffled_words
              /\ Permutation.Permutation shuffled_words (split sentence))
         text outs.
Proof.
  unfold shuffle_words_with.
  destruct (shuffle_sentences_run
              (mk_bar (List.length text) "Shuffling Words") text [] w)
    as (outs & w' & Hrun & Houts).
  exists outs, w'. split; [|exact Houts].
  rewrite (bind_returned _ _ w w
             (mk_bar (List.length text) "Shuffling Words") eq_refl).
  step Hrun. reflexivity.
Qed.

(** ** More on Synonym Substitution and the augmentation *)

(** X1. [replace_word_with_synonym] never raises.  It returns a
    lemma name of the word, or the word itself when WordNet has none
    for it; when the lookup fails it prints one line, draws nothing
    and returns the word. *)
Theorem replace_word_never_raises (word : string) (w : world) :
  (exists out w',
      replace_word_with_synonym word w = (Returned out, w')
      /\ synonym_or_self word out)
  /\ (forall e,
        wordnet_synsets word = Raised e ->
        replace_word_with_synonym word w
        = (Returned word,
           mk_world (rand_tape w) (rand_pos w) (clock_tape w) (clock_pos w)
             (stdout w ++
              [Printed ("An error occurred during word replacement: "
                        ++ exn_str e) newline]))).
Proof.
  split; [apply replace_word_total|].
  intros e Hlook. unfold replace_word_with_synonym.
  erewrite try_raised; [reflexivity|].
  apply bind_raised. unfold lift. now rewrite Hlook.
Qed.

Lemma draw_below_one (v : N) :
  Z.of_N (v mod two53) # 9007199254740992 < 1.
Proof.
  unfold Qlt; simpl.
  assert (H : (v mod two53 < two53)%N) by (apply N.mod_lt; discriminate).
  apply N2Z.inj_lt in H. change (Z.of_N two53) with 9007199254740992%Z in H.
  lia.
Qed.

(** The loop over the tokens under a numeric probability: one output
    per token, related to it by any relation that holds of what the
    two branches write. *)
Lemma augment_tokens_numeric (R : string -> string -> Prop) (p : Q)
    (progress : bool) (num_tokens : nat) (start_time : Q) :
  (forall v token out,
      (if negb (Qle_bool p (Z.of_N (v mod two53) # 9007199254740992))
       then synonym_or_self token out
       else out = token) ->
      R token out) ->
  forall (tokens augmented_tokens : list string) (processed_tokens : nat)
         (w : world),
  exists outs w',
    augment_tokens (PNumber p) progress num_tokens start_time tokens
                   augmented_tokens processed_tokens w
    = (Returned (augmented_tokens ++ outs,
                 (processed_tokens + List.length tokens)%nat), w')
    /\ Forall2 R tokens outs.
Proof.
  intros HR tokens.
  induction tokens as [|token tokens IH]; intros acc k w.
  - exists [], w. split; [|constructor].
    simpl. unfold ret. now rewrite app_nil_r, Nat.add_0_r.
  - cbn [augment_tokens].
    step (random_random_run w).
    set (v := current_variate w).
    rewrite (bind_returned _ _ (consume_variate w) (consume_variate w)
               (negb (Qle_bool p (Z.of_N (v mod two53) # 9007199254740992)))
               eq_refl).
    assert (Hout : exists out w1,
               (if negb (Qle_bool p (Z.of_N (v mod two53) # 9007199254740992))
                then replaced_token <- replace_word_with_synonym token ;;
                     ret (acc ++ [replaced_token])
                else ret (acc ++ [token])) (consume_variate w)
               = (Returned (acc ++ [out]), w1)
               /\ R token out).
    { pose proof (HR v token) as HRv.
      destruct (negb (Qle_bool p (Z.of_N (v mod two53) # 9007199254740992))).
      - destruct (replace_word_total token (consume_variate w))
          as (out & w1 & Hrun & Hsyn).
        exists out, w1. split; [|now apply HRv].
        step Hrun. reflexivity.
      - exists token, (consume_variate w). split; [reflexivity|].
        now apply HRv. }
    destruct Hout as (out & w1 & Hrun & Hout).
    step Hrun.
    destruct (report_progress_run progress (S k) num_tokens start_time w1)
      as (w2 & Hrep & _).
    step Hrep.
    destruct (IH (acc ++ [out]) (S k) w2) as (outs & w' & Hrest & Houts).
    exists (out :: outs), w'. split; [|now constructor].
    rewrite Hrest, <- app_assoc. simpl. do 3 f_equal. lia.
Qed.

Lemma augment_passes_numeric (R : string -> string -> Prop) (p : Q)
    (progress : bool) (num_tokens : nat) (start_time : Q)
    (tokens : list string) :
  (forall v token out,
      (if negb (Qle_bool p (Z.of_N (v mod two53) # 9007199254740992))
       then synonym_or_self token out
       else out = token) ->
      R token out) ->
  forall (passes : nat) (augmented_text : list string)
         (processed_tokens : nat) (w : world),
  exists variants w',
    augment_passes (PNumber p) progress num_tokens start_time tokens passes
                   augmented_text processed_tokens w
    = (Returned (augmented_text ++ variants), w')
    /\ List.length variants = passes
    /\ Forall (variant_of R tokens) variants.
Proof.
  intros HR passes.
  induction passes as [|passes IH]; intros acc k w.
  - exists [], w. split; [|split; [reflexivity | constructor]].
    simpl. unfold ret. now rewrite app_nil_r.
  - cbn [augment_passes].
    destruct (augment_tokens_numeric R p progress num_tokens start_time HR
                tokens [] k w) as (outs & w1 & Hrun & Houts).
    step Hrun. cbn [app].
    destruct (IH (acc ++ [join " " outs]) (k + List.length tokens)%nat w1)
      as (variants & w' & Hrest & Hlen & Hvariants).
    exists (join " " outs :: variants), w'.
    split; [|split].
    + rewrite Hrest, <- app_assoc. reflexivity.
    + simpl. now rewrite Hlen.
    + constructor; [now exists outs | exact Hvariants].
Qed.

Lemma augment_text_numeric (R : string -> string -> Prop) (p : Q)
    (text : string) (augmentation_factor : Z) (progress : bool) (w : world) :
  (forall v token out,
      (if negb (Qle_bool p (Z.of_N (v mod two53) # 9007199254740992))
       then synonym_or_self token out
       else out = token) ->
      R token out) ->
  exists variants,
    result (augment_text_with_synonyms text augmentation_factor (PNumber p)
                                       progress w)
    = Returned variants
    /\ List.length variants = Z.to_nat augmentation_factor
    /\ Forall (variant_of R (split text)) variants.
Proof.
  intros HR. unfold augment_text_with_synonyms.
  destruct (augment_passes_numeric R p progress (List.length (split text))
              (clock_tape w (clock_pos w)) (split text) HR
              (Z.to_nat augmentation_factor) [] 0%nat (snd (time_time w)))
    as (variants & w1 & Hpasses & Hlen & Hvariants).
  destruct (finish_progress_run progress w1) as (w2 & Hfin).
  exists variants. split; [|split; assumption].
  erewrite try_returned; [reflexivity|].
  rewrite (bind_returned _ _ w w tt eq_refl).
  rewrite (bind_returned _ _ _ _ _
             (eq_refl : time_time w = (_, snd (time_time w)))).
  step Hpasses. step Hfin. reflexivity.
Qed.

(** X2. Under any numeric probability the augmentation returns as
    many variants as the factor asks for (none for a factor below
    one), and each variant is one output per token of the text, in
    order and joined by single spaces, where an output is the token
    or what Synonym Substitution gives for it. *)
Theorem augment_numeric_variants (text : string) (augmentation_factor : Z)
    (p : Q) (progress : bool) (w : world) :
  exists variants,
    result (augment_text_with_synonyms text augmentation_factor (PNumber p)
                                       progress w)
    = Returned variants
    /\ List.length variants = Z.to_nat augmentation_factor
    /\ Forall (variant_of augmented (split text)) variants.
Proof.
  apply augment_text_numeric.
  intros v token out H. unfold augmented.
  destruct (negb _); [right | left]; exact H.
Qed.

(** X3. With a probability of one or more, every token of every
    variant has gone through Synonym Substitution: it is a lemma
    name of the token, or the token when WordNet has none. *)
Theorem augment_certain_substitutes_all (text : string)
    (augmentation_factor : Z) (p : Q) (progress : bool) (w : world) :
  1 <= p ->
  exists variants,
    result (augment_text_with_synonyms text augmentation_factor (PNumber p)
                                       progress w)
    = Returned variants
    /\ List.length variants = Z.to_nat augmentation_factor
    /\ Forall (variant_of synonym_or_self (split text)) variants.
Proof.
  intros Hp. apply augment_text_numeric.
  intros v token out H.
  destruct (Qle_bool p (Z.of_N (v mod two53) # 9007199254740992)) eqn:Hle.
  - apply Qle_bool_iff in Hle. exfalso.
    pose proof (draw_below_one v) as Hlt.
    apply (Qlt_irrefl 1).
    eapply Qle_lt_trans; [exact Hp|].
    eapply Qle_lt_trans; [exact Hle | exact Hlt].
  - exact H.
Qed.

Lemma augment_no_tokens (text : string) (augmentation_factor : Z)
    (probability : pyprob) (progress : bool) (w : world) :
  split text = [] ->
  probability <> PNone ->
  result (augment_text_with_synonyms text augmentation_factor probability
                                     progress w)
  = Returned (repeat "" (Z.to_nat augmentation_factor)).
Proof.
  intros Hsplit Hprob. unfold augment_text_with_synonyms.
  destruct (finish_progress_run progress (snd (time_time w))) as (w2 & Hfin).
  erewrite try_returned; [reflexivity|].
  assert (Hguard :
    (match probability with
     | PNone =>
         raise (ValueError
           "Probability value cannot be of NoneType. Choose a float from 0 to 1")
     | _ => ret tt
     end) w = (Returned tt, w))
    by (destruct probability; [congruence | reflexivity | reflexivity]).
  step Hguard.
  rewrite (bind_returned _ _ _ _ _
             (eq_refl : time_time w = (_, snd (time_time w)))).
  rewrite Hsplit.
  step (augment_passes_no_tokens probability progress 0
          (clock_tape w (clock_pos w)) (Z.to_nat augmentation_factor)
          [] 0%nat (snd (time_time w))).
  step Hfin. reflexivity.
Qed.

(** X4. A probability that has no order against a float (a string,
    say) is only found out at the first comparison.  On a text with
    a token and a factor of one or more, the [TypeError] of that
    comparison is caught: one variate has been drawn, one line is
    printed and the empty list is returned.  On a text without
    tokens nothing is ever compared, and the empty variants are
    returned as for a number. *)
Theorem augment_unordered_probability (text : string)
    (augmentation_factor : Z) (type_name : string) (progress : bool)
    (w : world) :
  (split text <> [] -> (0 < augmentation_factor)%Z ->
   let r := augment_text_with_synonyms text augmentation_factor
              (PUnordered type_name) progress w in
   result r = Returned []
   /\ rand_pos (final r) = S (rand_pos w)
   /\ stdout (final r)
      = stdout w ++
        [Printed
           ("An error occurred during text augmentation: " ++
            "'<' not supported between instances of 'float' and '"
            ++ type_name ++ "'") newline])
  /\ (split text = [] ->
      result (augment_text_with_synonyms text augmentation_factor
                (PUnordered type_name) progress w)
      = Returned (repeat "" (Z.to_nat augmentation_factor))).
Proof.
  split.
  - intros Htokens Hfactor.
    destruct (split text) as [|token tokens] eqn:Hsplit; [congruence|].
    destruct (Z.to_nat augmentation_factor) as [|passes] eqn:Hpasses; [lia|].
    unfold augment_text_with_synonyms.
    rewrite Hsplit, Hpasses.
    erewrite try_raised; cycle 1.
    + rewrite (bind_returned _ _ w w tt eq_refl).
      rewrite (bind_returned _ _ _ _ _
                 (eq_refl : time_time w = (_, snd (time_time w)))).
      apply bind_raised. cbn [augment_passes].
      apply bind_raised. cbn [augment_tokens].
      step (random_random_run (snd (time_time w))).
      apply bind_raised. reflexivity.
    + repeat split; reflexivity.
  - intros Hsplit. apply augment_no_tokens; [exact Hsplit | discriminate].
Qed.

(** X5. What a run with a probability of zero returns is a fixed
    point: augmenting the normal form of a text (its tokens joined by
    single spaces) with a probability of zero gives what augmenting
    the text gives, whatever the flags and the worlds. *)
Theorem augment_zero_of_normal_form (text : string)
    (augmentation_factor : Z) (d d' : positive) (progress progress' : bool)
    (w w' : world) :
  result (augment_text_with_synonyms (join " " (split text))
            augmentation_factor (PNumber (0 # d)) progress w)
  = result (augment_text_with_synonyms text augmentation_factor
              (PNumber (0 # d')) progress' w').
Proof.
  rewrite !augment_probability_zero_any_factor.
  now rewrite normalize_keeps_tokens.
Qed.

Lemma augment_text_never_raises (text : string) (augmentation_factor : Z)
    (probability : pyprob) (progress : bool) (w : world) :
  exists variants w',
    augment_text_with_synonyms text augmentation_factor probability
                               progress w
    = (Returned variants, w').
Proof.
  unfold augment_text_with_synonyms, try_except.
  match goal with
  | |- context [match ?body w with _ => _ end] =>
      destruct (body w) as [[variants|e] w1]
  end.
  - now exists variants, w1.
  - eexists _, _. reflexivity.
Qed.

(** X6. On a file that can be read, [augment_file_with_synonyms] is
    [augment_text_with_synonyms] on its content: the same list, and
    the same draws, clock readings and printed lines.  Its own
    handler is never reached. *)
Theorem augment_file_is_augment_text (file_path text : string)
    (augmentation_factor : Z) (probability : pyprob) (progress : bool)
    (w : world) :
  open_read file_path = Returned text ->
  augment_file_with_synonyms file_path augmentation_factor probability
                             progress w
  = augment_text_with_synonyms text augmentation_factor probability
                               progress w.
Proof.
  intros Hopen.
  destruct (augment_text_never_raises text augmentation_factor probability
              progress w) as (variants & w' & Haug).
  rewrite Haug. unfold augment_file_with_synonyms.
  apply try_returned.
  assert (Hload : load_text_file file_path w = (Returned text, w)).
  { unfold load_text_file. apply try_returned.
    rewrite (bind_returned _ _ w w text)
      by (unfold lift; now rewrite Hopen).
    reflexivity. }
  step Hload. step Haug. reflexivity.
Qed.

(** ** Inserting and deleting a word *)

Lemma list_insert_at (words : list string) (i : nat) (word : string) :
  (i <= List.length words)%nat ->
  list_insert words (Z.of_nat i) word
  = firstn i words ++ word :: skipn i words.
Proof.
  intros Hi. unfold list_insert.
  destruct (Z.ltb_spec (Z.of_nat i) 0); [lia|].
  rewrite Z.min_l by lia. now rewrite Nat2Z.id.
Qed.

Lemma insert_random_word_run (text word : string) (words : list string)
    (w : world) :
  word_tokenize text = Returned words ->
  let i := N.to_nat (current_variate w
                     mod N.of_nat (S (List.length words))) in
  insert_random_word text word w
  = (Returned (join " " (firstn i words ++ word :: skipn i words)),
     consume_variate w).
Proof.
  intros Htok i.
  assert (Hi : (i < S (List.length words))%nat)
    by (apply choice_index_in_range; lia).
  unfold insert_random_word. apply try_returned.
  rewrite (bind_returned _ _ w w words)
    by (unfold lift; now rewrite Htok).
  rewrite (bind_returned _ _ _ _ _
             (random_randint_run 0 (Z.of_nat (List.length words)) w
                ltac:(lia))).
  replace (Z.to_N (Z.of_nat (List.length words) - 0 + 1))
    with (N.of_nat (S (List.length words))) by lia.
  rewrite Z.add_0_l.
  replace (Z.of_N (current_variate w mod N.of_nat (S (List.length words))))
    with (Z.of_nat i) by (subst i; lia).
  rewrite list_insert_at by lia. reflexivity.
Qed.

(** X7. [insert_random_word] puts the word between the tokens of the
    text at the position drawn, which is any of [0 .. len] (so
    before the first token and after the last one too), and joins
    them by single spaces: one token more, the others kept in order.
    Each position is drawn by the variate equal to it. *)
Theorem insert_random_word_inserts (text word : string)
    (words : list string) (w : world) :
  word_tokenize text = Returned words ->
  (exists i,
      (i <= List.length words)%nat
      /\ insert_random_word text word w
         = (Returned (join " " (firstn i words ++ word :: skipn i words)),
            consume_variate w)
      /\ List.length (firstn i words ++ word :: skipn i words)
         = S (List.length words))
  /\ (forall i,
        (i <= List.length words)%nat ->
        current_variate w = N.of_nat i ->
        insert_random_word text word w
        = (Returned (join " " (firstn i words ++ word :: skipn i words)),
           consume_variate w)).
Proof.
  intros Htok. split.
  - exists (N.to_nat (current_variate w
                      mod N.of_nat (S (List.length words)))).
    assert (Hi : (N.to_nat (current_variate w
                            mod N.of_nat (S (List.length words)))
                  < S (List.length words))%nat)
      by (apply choice_index_in_range; lia).
    split; [lia|]. split; [now apply insert_random_word_run|].
    rewrite length_app. cbn [List.length].
    rewrite length_firstn, length_skipn. lia.
  - intros i Hi Hv.
    rewrite (insert_random_word_run text word words w Htok).
    rewrite Hv, N.mod_small by lia. now rewrite Nat2N.id.
Qed.

(** X8. When the tokenizer fails, [insert_random_word] and
    [delete_random_word] return the text as it was given; each
    prints one line, and nothing is drawn. *)
Theorem tokenizer_failure_returns_text (text word : string) (e : pyexn)
    (w : world) :
  word_tokenize text = Raised e ->
  insert_random_word text word w
  = (Returned text,
     mk_world (rand_tape w) (rand_pos w) (clock_tape w) (clock_pos w)
       (stdout w ++
        [Printed ("An error occurred during word insertion: " ++ exn_str e)
                 newline]))
  /\ delete_random_word text w
     = (Returned text,
        mk_world (rand_tape w) (rand_pos w) (clock_tape w) (clock_pos w)
          (stdout w ++
           [Printed ("An error occurred during word deletion: "
                     ++ exn_str e) newline])).
Proof.
  intros Htok. split.
  - unfold insert_random_word. erewrite try_raised; [reflexivity|].
    apply bind_raised. unfold lift. now rewrite Htok.
  - unfold delete_random_word. erewrite try_raised; [reflexivity|].
    apply bind_raised. unfold lift. now rewrite Htok.
Qed.

Lemma remove_inserted (words : list string) (word : string) :
  forall i,
    (i <= List.length words)%nat ->
    firstn i (firstn i words ++ word :: skipn i words)
    ++ skipn (S i) (firstn i words ++ word :: skipn i words)
    = words.
Proof.
  induction words as [|x words IH]; intros i Hi.
  - destruct i; [reflexivity | simpl in Hi; lia].
  - destruct i as [|i]; [reflexivity|].
    simpl in Hi. cbn [firstn skipn app].
    change (skipn (S (S i)) (x :: ?l)) with (skipn (S i) l).
    f_equal. apply IH. lia.
Qed.

(** X9. Deleting undoes inserting when the same position is drawn:
    from a text with at least one token, insert a word, and let the
    tokenizer read the result back as the tokens written; then
    [delete_random_word], drawing the position of the inserted word,
    returns the tokens of the text joined by single spaces. *)
Theorem delete_undoes_insert (text word : string) (words : list string)
    (w w2 : world) :
  word_tokenize text = Returned words ->
  words <> [] ->
  let i := N.to_nat (current_variate w
                     mod N.of_nat (S (List.length words))) in
  let inserted := firstn i words ++ word :: skipn i words in
  word_tokenize (join " " inserted) = Returned inserted ->
  current_variate w2 = N.of_nat i ->
  result (insert_random_word text word w) = Returned (join " " inserted)
  /\ result (delete_random_word (join " " inserted) w2)
     = Returned (join " " words).
Proof.
  intros Htok Hne i inserted Hback Hv.
  assert (Hi : (i < S (List.length words))%nat)
    by (apply choice_index_in_range; lia).
  assert (Hlen : List.length inserted = S (List.length words)).
  { subst inserted. rewrite length_app. cbn [List.length].
    rewrite length_firstn, length_skipn. lia. }
  assert (Hmany : (1 < List.length inserted)%nat).
  { rewrite Hlen. destruct words; [congruence | simpl; lia]. }
  split.
  - now rewrite (insert_random_word_run text word words w Htok).
  - rewrite (delete_random_word_each_index (join " " inserted) inserted i w2
               Hback Hmany ltac:(lia) Hv).
    unfold result, fst. subst inserted.
    now rewrite remove_inserted by lia.
Qed.

(** ** More on replacing and paraphrasing *)

Lemma occurs_contains (old s : string) :
  occurs old s -> contains old s = true.
Proof.
  intros (before & after & ->).
  induction before as [|b before IH].
  - cbn [append]. destruct (old ++ after)%string as [|c s'] eqn:Hs.
    + destruct old; [reflexivity | discriminate].
    + cbn [contains]. apply orb_true_iff. left.
      rewrite <- Hs. apply prefix_app. now exists after.
  - cbn [append contains]. rewrite IH. apply orb_true_r.
Qed.

Lemma occurs_in_join (old p q : string) (rest : list string) :
  occurs old (join old (p :: q :: rest)).
Proof. exists p, (join old (q :: rest)). reflexivity. Qed.

(** Where [old] does not occur, nothing is replaced. *)
Lemma str_replace_absent (s old new : string) :
  ~ occurs old s -> str_replace s old new = s.
Proof.
  intros Habsent. unfold str_replace.
  destruct old as [|o old']; cbn [is_empty].
  - exfalso. apply Habsent. now exists EmptyString, s.
  - destruct (replace_from_pieces (String o old') new ltac:(discriminate)
                (String.length s) s (le_n _))
      as (pieces & Hne & Hjoin & Hrep & _).
    destruct pieces as [|p [|q rest]]; [congruence | |].
    + rewrite Hrep, Hjoin. reflexivity.
    + exfalso. apply Habsent. rewrite Hjoin. apply occurs_in_join.
Qed.

(** X10. When the word does not occur in the text, [insert_synonym]
    returns the text unchanged, whatever synonym was drawn; it never
    raises. *)
Theorem insert_synonym_absent_word (text word : string) (w : world) :
  ~ occurs word text ->
  exists w', insert_synonym text word w = (Returned text, w').
Proof.
  intros Habsent.
  destruct (replace_word_total word w) as (synonym & w' & Hrun & _).
  exists w'. unfold insert_synonym. apply try_returned.
  step Hrun. unfold ret. now rewrite str_replace_absent.
Qed.

Lemma paraphrase_tokens_kept (tagged_tokens : list (string * string))
    (w : world) :
  Forall (fun tagged => startswith_any ["VB"; "NN"; "JJ"] (snd tagged)
                        = false) tagged_tokens ->
  paraphrase_tokens tagged_tokens w = (Returned (map fst tagged_tokens), w).
Proof.
  induction tagged_tokens as [|[token tag] rest IH]; intros Hall.
  - reflexivity.
  - pose proof (Forall_inv Hall) as Htag. cbn [snd] in Htag.
    cbn [paraphrase_tokens]. rewrite Htag.
    rewrite (bind_returned _ _ w w token eq_refl).
    step (IH (Forall_inv_tail Hall)). reflexivity.
Qed.

(** X11. A text in which no token is tagged as a verb, a noun or an
    adjective is paraphrased to its tokens joined by single spaces:
    WordNet is not consulted, nothing is drawn and nothing printed. *)
Theorem paraphrase_without_content_words (text : string)
    (tokens : list string) (tagged_tokens : list (string * string))
    (w : world) :
  word_tokenize text = Returned tokens ->
  pos_tag tokens = Returned tagged_tokens ->
  Forall (fun tagged => startswith_any ["VB"; "NN"; "JJ"] (snd tagged)
                        = false) tagged_tokens ->
  paraphrase text w = (Returned (join " " (map fst tagged_tokens)), w).
Proof.
  intros Htok Htag Hall. unfold paraphrase. apply try_returned.
  rewrite (bind_returned _ _ w w tokens)
    by (unfold lift; now rewrite Htok).
  rewrite (bind_returned _ _ w w tagged_tokens)
    by (unfold lift; now rewrite Htag).
  step (paraphrase_tokens_kept tagged_tokens w Hall). reflexivity.
Qed.

(** ** Images *)

Lemma random_randint_empty (a b : Z) (w : world) :
  (b < a)%Z ->
  exists e,
    random_randint a b w = (Raised e, w) /\ exn_class e = "ValueError".
Proof.
  intros Hab. unfold random_randint.
  destruct (Z.ltb_spec b a); [|lia].
  eexists. split; reflexivity.
Qed.

(** X12. A crop size that does not fit is an error of [randint]
    that nothing catches: when the crop is wider than the image the
    [ValueError] is raised before anything is drawn; when only its
    height is too large, after the left offset has been drawn. *)
Theorem random_crop_too_large_raises (im : image) (cw ch : Z) (w : world) :
  ((img_width im < cw)%Z ->
   exists e,
     random_crop im (cw, ch) w = (Raised e, w)
     /\ exn_class e = "ValueError")
  /\ ((cw <= img_width im)%Z -> (img_height im < ch)%Z ->
      exists e,
        random_crop im (cw, ch) w = (Raised e, consume_variate w)
        /\ exn_class e = "ValueError").
Proof.
  split.
  - intros Hw.
    destruct (random_randint_empty 0 (img_width im - cw) w ltac:(lia))
      as (e & Hrun & Hcls).
    exists e. split; [|exact Hcls].
    unfold random_crop, image_size. cbn [fst snd].
    apply bind_raised. exact Hrun.
  - intros Hw Hh.
    destruct (random_randint_empty 0 (img_height im - ch)
                (consume_variate w) ltac:(lia)) as (e & Hrun & Hcls).
    exists e. split; [|exact Hcls].
    unfold random_crop, image_size. cbn [fst snd].
    rewrite (bind_returned _ _ _ _ _
               (random_randint_run 0 (img_width im - cw) w ltac:(lia))).
    apply bind_raised. exact Hrun.
Qed.

(** X13. For a source of no more pixels than PIL lets a crop have
    (twice [MAX_IMAGE_PIXELS]), [rotate] answers with an image of
    the size of the source, whatever size the expanding rotation
    gave: it is the top left corner of the rotated image, blank
    where the rotated image does not reach.  A failure of the
    rotation is not caught. *)
Theorem rotate_keeps_size (im : image) (angle : Q) (w : world) :
  (0 <= img_width im)%Z ->
  (0 <= img_height im)%Z ->
  (Z.max 1 (img_width im) * Z.max 1 (img_height im)
   <= 2 * MAX_IMAGE_PIXELS)%Z ->
  (forall rotated_image,
      Image_rotate_expand im angle = Returned rotated_image ->
      exists out,
        rotate im angle w = (Returned out, w)
        /\ image_size out = image_size im
        /\ (forall x y,
              (0 <= x < img_width im)%Z -> (0 <= y < img_height im)%Z ->
              img_pixel out x y
              = if ((x <? img_width rotated_image)
                    && (y <? img_height rotated_image))%Z
                then img_pixel rotated_image x y
                else 0%N))
  /\ (forall e,
        Image_rotate_expand im angle = Raised e ->
        rotate im angle w = (Raised e, w)).
Proof.
  intros Hw Hh Hpixels. split.
  - intros rotated Hrot. unfold rotate.
    rewrite (bind_returned _ _ w w rotated)
      by (unfold lift; now rewrite Hrot).
    unfold crop, Image_crop.
    destruct (Z.ltb_spec (img_width im) 0); [lia|].
    destruct (Z.ltb_spec (img_height im) 0); [lia|].
    rewrite (bind_returned _ _ w w tt)
      by (apply bomb_check_passes; cbn [fst snd];
          rewrite !Z.sub_0_r, !Z.abs_eq by lia; exact Hpixels).
    eexists. split; [reflexivity|].
    split; [unfold image_size; simpl; f_equal; lia|].
    intros x y Hx Hy. simpl.
    destruct (Z.leb_spec 0 x); [|lia].
    destruct (Z.leb_spec 0 y); [|lia].
    destruct (x <? img_width rotated)%Z, (y <? img_height rotated)%Z;
      reflexivity.
  - intros e Hrot. unfold rotate.
    apply bind_raised. unfold lift. now rewrite Hrot.
Qed.

(** X14. Flipping twice, horizontally or vertically, gives back the
    image: the same size and the same pixel everywhere.  The two
    flips commute. *)
Theorem flip_twice_restores (im : image) :
  (image_size (flip_horizontal (flip_horizontal im)) = image_size im
   /\ forall x y,
        img_pixel (flip_horizontal (flip_horizontal im)) x y
        = img_pixel im x y)
  /\ (image_size (flip_vertical (flip_vertical im)) = image_size im
      /\ forall x y,
           img_pixel (flip_vertical (flip_vertical im)) x y
           = img_pixel im x y)
  /\ (image_size (flip_horizontal (flip_vertical im))
      = image_size (flip_vertical (flip_horizontal im))
      /\ forall x y,
           img_pixel (flip_horizontal (flip_vertical im)) x y
           = img_pixel (flip_vertical (flip_horizontal im)) x y).
Proof.
  repeat split; try reflexivity; intros x y; simpl.
  - f_equal. lia.
  - f_equal. lia.
Qed.

(** X15. Cropping a flipped image is flipping the crop of the
    mirrored box: for a box with [left <= right] and
    [upper <= lower], of no more pixels than PIL lets a crop have,
    [crop (flip_horizontal im) (left, upper, right, lower)] and
    [flip_horizontal] of [crop im (width - right, upper,
    width - left, lower)] have the same size and the same pixel
    everywhere. *)
Theorem crop_of_flip_is_flip_of_crop (im : image) (l u r d : Z)
    (w : world) :
  (l <= r)%Z -> (u <= d)%Z ->
  (Z.max 1 (r - l) * Z.max 1 (d - u) <= 2 * MAX_IMAGE_PIXELS)%Z ->
  exists a b,
    crop (flip_horizontal im) (l, u, r, d) w = (Returned a, w)
    /\ crop im (img_width im - r, u, img_width im - l, d)%Z w
       = (Returned b, w)
    /\ image_size a = image_size (flip_horizontal b)
    /\ forall x y,
         img_pixel a x y = img_pixel (flip_horizontal b) x y.
Proof.
  intros Hlr Hud Hpixels. unfold crop, Image_crop.
  destruct (Z.ltb_spec r l); [lia|].
  destruct (Z.ltb_spec d u); [lia|].
  destruct (Z.ltb_spec (img_width im - l) (img_width im - r)); [lia|].
  rewrite (bind_returned _ _ w w tt)
    by (apply bomb_check_passes; cbn [fst snd];
        rewrite !Z.abs_eq by lia; exact Hpixels).
  rewrite (bind_returned _ _ w w tt)
    by (apply bomb_check_passes; cbn [fst snd];
        rewrite !Z.abs_eq by lia;
        replace (img_width im - l - (img_width im - r))%Z
          with (r - l)%Z by lia; exact Hpixels).
  eexists _, _. split; [reflexivity|]. split; [reflexivity|].
  split; [unfold image_size; simpl; f_equal; lia|].
  intros x y. simpl.
  replace (img_width im - r + (img_width im - l - (img_width im - r) - 1 - x))%Z
    with (img_width im - 1 - (l + x))%Z by lia.
  destruct (Z.leb_spec 0 (l + x)), (Z.ltb_spec (l + x) (img_width im)),
    (Z.leb_spec 0 (img_width im - 1 - (l + x))),
    (Z.ltb_spec (img_width im - 1 - (l + x)) (img_width im));
    try lia; reflexivity.
Qed.

End Replication.

(** ** The functions on concrete inputs *)

Example split_example :
  split "  the quick   brown fox " = ["the"; "quick"; "brown"; "fox"].
Proof. reflexivity. Qed.

Example join_example : join " " ["the"; "quick"; "fox"] = "the quick fox".
Proof. reflexivity. Qed.

Example str_replace_example :
  str_replace "the cat sat on the mat" "at" "og" = "the cog sog on the mog".
Proof. reflexivity. Qed.

(** Occurrences are taken from the left and do not overlap. *)
Example str_replace_overlap : str_replace "aaa" "aa" "b" = "ba".
Proof. reflexivity. Qed.

Example str_replace_empty_old : str_replace "abc" "" "-" = "-a-b-c-".
Proof. reflexivity. Qed.

(** A failing lookup is reported and the word is kept. *)
Example replace_word_lookup_failure :
  replace_word_with_synonym sample_synsets "corrupt" (sample_world [3]%N)
  = (Returned "corrupt",
     mk_world (rand_tape (sample_world [3]%N)) 0
              (clock_tape (sample_world [3]%N)) 0
              [Printed
                 "An error occurred during word replacement: Resource wordnet not found."
                 newline]).
Proof. reflexivity. Qed.

(** Every token is drawn for; with a probability of one each is
    replaced, and the words WordNet does not know stay. *)
Example augment_example :
  result (augment_text_with_synonyms sample_synsets "the happy  cat" 2
            (PNumber 1) false (sample_world [0; 1; 2; 3; 5; 5; 6; 7; 8]%N))
  = Returned ["the glad true_cat"; "the happy cat"].
Proof. vm_compute. reflexivity. Qed.

Example augment_half_example :
  result (augment_text_with_synonyms sample_synsets "the happy cat" 1
            (PNumber (1 # 2)) false
            (sample_world [0; 9007199254740991; 0; 1]%N))
  = Returned ["the happy true_cat"].
Proof. vm_compute. reflexivity. Qed.

(** A probability with no order against a float is caught like any
    other failure. *)
Example augment_unordered_example :
  result (augment_text_with_synonyms sample_synsets "the happy cat" 3
            (PUnordered "str") true (sample_world []))
  = Returned [].
Proof. vm_compute. reflexivity. Qed.

Example augment_file_example :
  result (augment_file_with_synonyms sample_synsets sample_open_read
            "corpus.txt" 1 (PNumber 1) false (sample_world [0; 0; 3; 0; 1]%N))
  = Returned ["the happy true_cat"].
Proof. vm_compute. reflexivity. Qed.

(** The replacement is of substrings: the word inside another word is
    replaced as well. *)
Example insert_synonym_inside_words :
  result (insert_synonym sample_synsets "the cat sat in a category" "cat"
            (sample_world [1]%N))
  = Returned "the true_cat sat in a true_category".
Proof. vm_compute. reflexivity. Qed.

Example insert_random_word_example :
  result (insert_random_word sample_word_tokenize "the cat" "happy"
            (sample_world [1]%N))
  = Returned "the happy cat".
Proof. vm_compute. reflexivity. Qed.

Example delete_random_word_example :
  result (delete_random_word sample_word_tokenize "the happy cat"
            (sample_world [4]%N))
  = Returned "the cat".
Proof. vm_compute. reflexivity. Qed.

Example paraphrase_example :
  result (paraphrase sample_synsets sample_word_tokenize sample_pos_tag
            "the happy cat purrs" (sample_world [2; 1]%N))
  = Returned "the glad true_cat purrs".
Proof. vm_compute. reflexivity. Qed.

Example paraphrase_failure_example :
  result (paraphrase sample_synsets missing_word_tokenize sample_pos_tag
            "the happy cat purrs" (sample_world [2; 1]%N))
  = Returned "the happy cat purrs".
Proof. vm_compute. reflexivity. Qed.

Example random_crop_example :
  match result (random_crop sample_image (2, 2)%Z (sample_world [5; 1]%N)) with
  | Returned cropped =>
      image_size cropped = (2, 2)%Z
      /\ map (fun xy => img_pixel cropped (fst xy) (snd xy))
             [(0, 0); (1, 0); (0, 1); (1, 1)]%Z
         = [12; 13; 22; 23]%N
  | Raised _ => False
  end.
Proof. vm_compute. split; reflexivity. Qed.

(** A crop larger than the image: the empty range of [randint] is a
    [ValueError], and nothing catches it. *)
Example random_crop_too_large :
  result (random_crop sample_image (5, 2)%Z (sample_world [5; 1]%N))
  = Raised (ValueError "empty range for randrange() (0, 0, 0)").
Proof. vm_compute. reflexivity. Qed.

(** The same body under a binding to the class. *)
Example shuffle_words_with_class_example :
  result (shuffle_words_with (PyClass "tqdm")
            ["the happy cat"; "a b"] (sample_world [0; 0; 0; 1; 0]%N))
  = Returned ["the cat happy"; "b a"].
Proof. vm_compute. reflexivity. Qed.

Example shuffle_words_example :
  result (shuffle_words ["the happy cat"; "a b"]
            (sample_world [0; 0; 0; 1; 0]%N))
  = Raised (TypeError "'module' object is not callable").
Proof. reflexivity. Qed.

Example flip_horizontal_example :
  map (fun x => img_pixel (flip_horizontal sample_image) x 1) [0; 1; 2; 3]%Z
  = [13; 12; 11; 10]%N.
Proof. reflexivity. Qed.

Example flip_vertical_example :
  map (fun y => img_pixel (flip_vertical sample_image) 2 y) [0; 1; 2]%Z
  = [22; 12; 2]%N.
Proof. reflexivity. Qed.

(** The corner kept by [rotate] holds the blank border of the expanded
    rotation. *)
Example rotate_example :
  match result (rotate sample_rotate sample_image (45 # 1) (sample_world [])) with
  | Returned out =>
      image_size out = (4, 3)%Z
      /\ map (fun xy => img_pixel out (fst xy) (snd xy))
             [(1, 1); (2, 1); (3, 2)]%Z
         = [0; 1; 12]%N
  | Raised _ => False
  end.
Proof. vm_compute. split; reflexivity. Qed.

(** A crop of one row that fits, but of one pixel too many for PIL. *)
Example random_crop_over_limit_example :
  result (random_crop wide_image (178956971, 1)%Z (sample_world [1]%N))
  = Raised (DecompressionBombError
              "Image size (178956971 pixels) exceeds limit of 178956970 pixels, could be decompression bomb DOS attack.").
Proof. vm_compute. reflexivity. Qed.

(** ** The statements at concrete inputs *)

Lemma replace_word_with_synonym_member_witness :
  sample_synsets "happy" = Returned [["happy"; "felicitous"]; ["glad"; "happy"]]
  /\ exists synonym,
       result (replace_word_with_synonym sample_synsets "happy"
                 (sample_world [6]%N)) = Returned synonym
       /\ In synonym ["happy"; "felicitous"; "glad"; "happy"].
Proof.
  split; [reflexivity|].
  apply (proj1 (replace_word_with_synonym_member sample_synsets "happy"
                  [["happy"; "felicitous"]; ["glad"; "happy"]]
                  (sample_world [6]%N) eq_refl)).
  discriminate.
Defined.

Lemma augment_unreadable_file_empty_strings_witness :
  sample_open_read "missing.txt"
  = Raised (mk_exn "FileNotFoundError"
              "[Errno 2] No such file or directory: 'missing.txt'")
  /\ PNumber (1 # 2) <> PNone
  /\ result (augment_file_with_synonyms sample_synsets sample_open_read
               "missing.txt" 3 (PNumber (1 # 2)) true (sample_world []))
     = Returned [""; ""; ""].
Proof.
  split; [reflexivity|]. split; [discriminate|].
  apply (augment_unreadable_file_empty_strings sample_synsets sample_open_read
           "missing.txt" _ 3 (PNumber (1 # 2)) true (sample_world []) eq_refl).
  discriminate.
Defined.

Lemma augment_progress_does_not_alter_result_witness :
  same_draws (sample_world [0; 1; 2; 3; 5]%N) (later_world [0; 1; 2; 3; 5]%N)
  /\ result (augment_text_with_synonyms sample_synsets "the happy cat" 2
               (PNumber (1 # 2)) true (sample_world [0; 1; 2; 3; 5]%N))
     = result (augment_text_with_synonyms sample_synsets "the happy cat" 2
                 (PNumber (1 # 2)) false (later_world [0; 1; 2; 3; 5]%N)).
Proof.
  split; [split; reflexivity|].
  apply (augment_progress_does_not_alter_result sample_synsets "the happy cat"
           2 (PNumber (1 # 2)) true false
           (sample_world [0; 1; 2; 3; 5]%N) (later_world [0; 1; 2; 3; 5]%N)).
  split; reflexivity.
Defined.

Lemma random_crop_exact_size_witness :
  (0 <= 2 <= img_width sample_image)%Z
  /\ (0 <= 3 <= img_height sample_image)%Z
  /\ (Z.max 1 2 * Z.max 1 3 <= 2 * MAX_IMAGE_PIXELS)%Z
  /\ exists cropped,
       random_crop sample_image (2, 3)%Z (sample_world [7; 4]%N)
       = (Returned cropped,
          consume_variate (consume_variate (sample_world [7; 4]%N)))
       /\ image_size cropped = (2, 3)%Z.
Proof.
  assert (Hw : (0 <= 2 <= img_width sample_image)%Z) by (simpl; lia).
  assert (Hh : (0 <= 3 <= img_height sample_image)%Z) by (simpl; lia).
  assert (Hpixels : (Z.max 1 2 * Z.max 1 3 <= 2 * MAX_IMAGE_PIXELS)%Z)
    by (vm_compute; discriminate).
  split; [exact Hw|]. split; [exact Hh|]. split; [exact Hpixels|].
  destruct (random_crop_exact_size sample_image 2 3 (sample_world [7; 4]%N)
              Hw Hh Hpixels) as (cropped & Hrun & Hsize & _).
  exists cropped. split; [exact Hrun | exact Hsize].
Defined.

Lemma delete_random_word_rejoins_tokens_witness :
  sample_word_tokenize "the happy cat" = Returned ["the"; "happy"; "cat"]
  /\ delete_random_word sample_word_tokenize "the happy cat"
       (sample_world [5]%N)
     = (Returned "the happy", consume_variate (sample_world [5]%N)).
Proof.
  split; [reflexivity|].
  apply (proj2 (proj2 (proj2
           (delete_random_word_rejoins_tokens sample_word_tokenize
              "the happy cat" ["the"; "happy"; "cat"] (sample_world [5]%N)
              eq_refl)))).
  simpl; lia.
Defined.

Lemma paraphrase_substitutes_content_words_witness :
  sample_word_tokenize "the happy cat" = Returned ["the"; "happy"; "cat"]
  /\ sample_pos_tag ["the"; "happy"; "cat"]
     = Returned [("the", "DT"); ("happy", "JJ"); ("cat", "NN")]
  /\ exists paraphrased_tokens,
       result (paraphrase sample_synsets sample_word_tokenize sample_pos_tag
                 "the happy cat" (sample_world [2; 1]%N))
       = Returned (join " " paraphrased_tokens)
       /\ Forall2 (paraphrased sample_synsets)
            [("the", "DT"); ("happy", "JJ"); ("cat", "NN")]
            paraphrased_tokens.
Proof.
  split; [reflexivity|]. split; [reflexivity|].
  apply (proj1 (paraphrase_substitutes_content_words sample_synsets
                  sample_word_tokenize sample_pos_tag "the happy cat"
                  (sample_world [2; 1]%N))
           ["the"; "happy"; "cat"]
           [("the", "DT"); ("happy", "JJ"); ("cat", "NN")]
           eq_refl eq_refl).
Defined.

Lemma insert_synonym_replaces_every_occurrence_witness :
  "the" <> EmptyString
  /\ lemma_names sample_synsets "the" = []
  /\ result (insert_synonym sample_synsets "the cat on the mat" "the"
               (sample_world [1]%N))
     = Returned "the cat on the mat".
Proof.
  split; [discriminate|]. split; [reflexivity|].
  destruct (insert_synonym_replaces_every_occurrence sample_synsets
              "the cat on the mat" "the" (sample_world [1]%N))
    as (synonym & w' & pieces & _ & _ & _ & _ & Hnone).
  rewrite (Hnone eq_refl). reflexivity.
Defined.

(** ** Where the code departs from what is said of it *)

(** C1 at a concrete input: with [probability=None] the caller gets
    the empty list, not an exception. *)
Lemma augment_none_is_not_raised :
  ~ exists e,
      result (augment_text_with_synonyms sample_synsets "the happy cat" 2
                PNone true (sample_world [0; 1; 2]%N))
      = Raised e.
Proof. intros [e H]. vm_compute in H. discriminate. Qed.

(** C4, as stated, fails: a text of one token with a blank before it
    does not come back unchanged, the blank is lost. *)
Lemma delete_random_word_loses_blanks :
  sample_word_tokenize " cat" = Returned ["cat"]
  /\ result (delete_random_word sample_word_tokenize " cat"
               (sample_world [0]%N))
     = Returned "cat"
  /\ result (delete_random_word sample_word_tokenize " cat"
               (sample_world [0]%N))
     <> Returned " cat".
Proof.
  split; [reflexivity|]. split; [reflexivity|].
  vm_compute. discriminate.
Qed.

(** C7, as stated, fails: a crop no larger than the image, but of more
    pixels than PIL lets a crop have, is not returned; [Image.crop]
    raises. *)
Lemma random_crop_refused_by_bomb_check :
  (178956971 <= img_width wide_image)%Z
  /\ (1 <= img_height wide_image)%Z
  /\ ~ exists cropped w',
        random_crop wide_image (178956971, 1)%Z (sample_world [1]%N)
        = (Returned cropped, w').
Proof.
  split; [simpl; lia|]. split; [simpl; lia|].
  intros (cropped & w' & H). vm_compute in H. discriminate.
Qed.

(** ** Further statements at concrete inputs *)

Lemma replace_word_never_raises_witness :
  sample_synsets "corrupt"
  = Raised (mk_exn "LookupError" "Resource wordnet not found.")
  /\ result (replace_word_with_synonym sample_synsets "corrupt"
               (sample_world [3]%N))
     = Returned "corrupt".
Proof.
  split; [reflexivity|].
  rewrite (proj2 (replace_word_never_raises sample_synsets "corrupt"
                    (sample_world [3]%N)) _ eq_refl).
  reflexivity.
Defined.

Lemma augment_certain_substitutes_all_witness :
  1 <= 3 # 2
  /\ exists variants,
       result (augment_text_with_synonyms sample_synsets "the happy cat" 2
                 (PNumber (3 # 2)) true (sample_world [0; 1; 2; 3; 5]%N))
       = Returned variants
       /\ List.length variants = 2%nat
       /\ Forall (variant_of (synonym_or_self sample_synsets)
                    ["the"; "happy"; "cat"]) variants.
Proof.
  assert (Hp : 1 <= 3 # 2) by (unfold Qle; simpl; lia).
  split; [exact Hp|].
  exact (augment_certain_substitutes_all sample_synsets "the happy cat" 2
           (3 # 2) true (sample_world [0; 1; 2; 3; 5]%N) Hp).
Defined.

Lemma augment_unordered_probability_witness :
  split "happy cat" <> []
  /\ (0 < 2)%Z
  /\ result (augment_text_with_synonyms sample_synsets "happy cat" 2
               (PUnordered "str") true (sample_world [7]%N))
     = Returned [].
Proof.
  assert (Htokens : split "happy cat" <> []) by discriminate.
  assert (Hfactor : (0 < 2)%Z) by lia.
  split; [exact Htokens|]. split; [exact Hfactor|].
  exact (proj1 (proj1 (augment_unordered_probability sample_synsets
                         "happy cat" 2 "str" true (sample_world [7]%N))
                  Htokens Hfactor)).
Defined.

Lemma augment_file_is_augment_text_witness :
  sample_open_read "corpus.txt" = Returned "the happy cat"
  /\ augment_file_with_synonyms sample_synsets sample_open_read "corpus.txt"
       2 (PNumber (1 # 2)) true (sample_world [0; 1; 2]%N)
     = augment_text_with_synonyms sample_synsets "the happy cat"
         2 (PNumber (1 # 2)) true (sample_world [0; 1; 2]%N).
Proof.
  split; [reflexivity|].
  apply (augment_file_is_augment_text sample_synsets sample_open_read
           "corpus.txt" "the happy cat" 2 (PNumber (1 # 2)) true
           (sample_world [0; 1; 2]%N)).
  reflexivity.
Defined.

Lemma insert_random_word_inserts_witness :
  sample_word_tokenize "the cat" = Returned ["the"; "cat"]
  /\ (2 <= List.length ["the"; "cat"])%nat
  /\ current_variate (sample_world [2]%N) = N.of_nat 2
  /\ insert_random_word sample_word_tokenize "the cat" "happy"
       (sample_world [2]%N)
     = (Returned "the cat happy", consume_variate (sample_world [2]%N)).
Proof.
  split; [reflexivity|]. split; [simpl; lia|]. split; [reflexivity|].
  apply (proj2 (insert_random_word_inserts sample_word_tokenize "the cat"
                  "happy" ["the"; "cat"] (sample_world [2]%N) eq_refl) 2%nat).
  - simpl; lia.
  - reflexivity.
Defined.

Lemma tokenizer_failure_returns_text_witness :
  missing_word_tokenize "the cat"
  = Raised (mk_exn "LookupError" "Resource punkt not found.")
  /\ result (insert_random_word missing_word_tokenize "the cat" "happy"
               (sample_world [2]%N))
     = Returned "the cat"
  /\ result (delete_random_word missing_word_tokenize "the cat"
               (sample_world [2]%N))
     = Returned "the cat".
Proof.
  split; [reflexivity|].
  destruct (tokenizer_failure_returns_text missing_word_tokenize "the cat"
              "happy" _ (sample_world [2]%N) eq_refl) as [Hins Hdel].
  rewrite Hins, Hdel. split; reflexivity.
Defined.

Lemma delete_undoes_insert_witness :
  sample_word_tokenize "the  cat" = Returned ["the"; "cat"]
  /\ ["the"; "cat"] <> []
  /\ sample_word_tokenize "the happy cat" = Returned ["the"; "happy"; "cat"]
  /\ current_variate (sample_world [1]%N) = N.of_nat 1
  /\ result (insert_random_word sample_word_tokenize "the  cat" "happy"
               (sample_world [4]%N))
     = Returned "the happy cat"
  /\ result (delete_random_word sample_word_tokenize "the happy cat"
               (sample_world [1]%N))
     = Returned "the cat".
Proof.
  split; [reflexivity|]. split; [discriminate|]. split; [reflexivity|].
  split; [reflexivity|].
  apply (delete_undoes_insert sample_word_tokenize "the  cat" "happy"
           ["the"; "cat"] (sample_world [4]%N) (sample_world [1]%N)).
  - reflexivity.
  - discriminate.
  - reflexivity.
  - reflexivity.
Defined.

Lemma insert_synonym_absent_word_witness :
  ~ occurs "happy" "the cat sat"
  /\ exists w',
       insert_synonym sample_synsets "the cat sat" "happy" (sample_world [2]%N)
       = (Returned "the cat sat", w').
Proof.
  assert (Habsent : ~ occurs "happy" "the cat sat").
  { intros H. apply occurs_contains in H. vm_compute in H. discriminate. }
  split; [exact Habsent|].
  exact (insert_synonym_absent_word sample_synsets "the cat sat" "happy"
           (sample_world [2]%N) Habsent).
Defined.

Lemma paraphrase_without_content_words_witness :
  sample_word_tokenize "on  the mat" = Returned ["on"; "the"; "mat"]
  /\ sample_pos_tag ["on"; "the"; "mat"]
     = Returned [("on", "DT"); ("the", "DT"); ("mat", "DT")]
  /\ paraphrase sample_synsets sample_word_tokenize sample_pos_tag
       "on  the mat" (sample_world [2]%N)
     = (Returned "on the mat", sample_world [2]%N).
Proof.
  split; [reflexivity|]. split; [reflexivity|].
  apply (paraphrase_without_content_words sample_synsets sample_word_tokenize
           sample_pos_tag "on  the mat" ["on"; "the"; "mat"]
           [("on", "DT"); ("the", "DT"); ("mat", "DT")] (sample_world [2]%N)).
  - reflexivity.
  - reflexivity.
  - repeat constructor.
Defined.

Lemma random_crop_too_large_raises_witness :
  (img_width sample_image < 5)%Z
  /\ exists e,
       random_crop sample_image (5, 2)%Z (sample_world [1; 1]%N)
       = (Raised e, sample_world [1; 1]%N)
       /\ exn_class e = "ValueError".
Proof.
  assert (Hw : (img_width sample_image < 5)%Z) by (simpl; lia).
  split; [exact Hw|].
  exact (proj1 (random_crop_too_large_raises sample_image 5 2
                  (sample_world [1; 1]%N)) Hw).
Defined.

Lemma rotate_keeps_size_witness :
  (0 <= img_width sample_image)%Z
  /\ (0 <= img_height sample_image)%Z
  /\ (Z.max 1 (img_width sample_image) * Z.max 1 (img_height sample_image)
      <= 2 * MAX_IMAGE_PIXELS)%Z
  /\ exists out,
       rotate sample_rotate sample_image (45 # 1) (sample_world [])
       = (Returned out, sample_world [])
       /\ image_size out = (4, 3)%Z.
Proof.
  assert (Hw : (0 <= img_width sample_image)%Z) by (simpl; lia).
  assert (Hh : (0 <= img_height sample_image)%Z) by (simpl; lia).
  assert (Hpixels :
            (Z.max 1 (img_width sample_image)
             * Z.max 1 (img_height sample_image)
             <= 2 * MAX_IMAGE_PIXELS)%Z) by (vm_compute; discriminate).
  split; [exact Hw|]. split; [exact Hh|]. split; [exact Hpixels|].
  destruct (proj1 (rotate_keeps_size sample_rotate sample_image (45 # 1)
                     (sample_world []) Hw Hh Hpixels) _ eq_refl)
    as (out & Hrun & Hsize & _).
  exists out. split; [exact Hrun | exact Hsize].
Defined.

(** The box of the first column of a flipped image of width four is
    mirrored to the box of the last column. *)
Lemma crop_of_flip_is_flip_of_crop_witness :
  (0 <= 1)%Z /\ (0 <= 2)%Z
  /\ (Z.max 1 (1 - 0) * Z.max 1 (2 - 0) <= 2 * MAX_IMAGE_PIXELS)%Z
  /\ exists a b,
       crop (flip_horizontal sample_image) (0, 0, 1, 2)%Z (sample_world [])
       = (Returned a, sample_world [])
       /\ crop sample_image (3, 0, 4, 2)%Z (sample_world [])
          = (Returned b, sample_world [])
       /\ forall x y, img_pixel a x y = img_pixel (flip_horizontal b) x y.
Proof.
  assert (Hlr : (0 <= 1)%Z) by lia.
  assert (Hud : (0 <= 2)%Z) by lia.
  assert (Hpixels :
            (Z.max 1 (1 - 0) * Z.max 1 (2 - 0) <= 2 * MAX_IMAGE_PIXELS)%Z)
    by (vm_compute; discriminate).
  split; [exact Hlr|]. split; [exact Hud|]. split; [exact Hpixels|].
  destruct (crop_of_flip_is_flip_of_crop sample_image 0 0 1 2
              (sample_world []) Hlr Hud Hpixels)
    as (a & b & Ha & Hb & _ & Hpix).
  exists a, b. split; [exact Ha|]. split; [exact Hb | exact Hpix].
Defined.
